(** * rclone_papi: directory and file reconciliation

    A shallow embedding of the comparison and planning code of
    [scripts/rclone_papi.py] and [scripts/rclone_papi_st_check.py], and the
    properties of it that the specification states.

    Layout: the Python builtins the scripts call ([Py]), the part of
    [datetime] they use ([Datetime]), the two scripts ([complete_list_check],
    [complete_file_list_check], the CSV batch reader), the listing calls,
    the backup ([large_folder_backup_with_analysis]), the batch loop and
    the difference report, then the lemmas. *)

From Stdlib Require Import ZArith NArith List Bool Lia.
From Stdlib Require Strings.String Strings.Ascii Numbers.DecimalString.
From stdpp Require Import base option list sorting gmap sets strings.

Local Open Scope list_scope.

(* ===================================================================== *)
(** * Python builtins *)
(* ===================================================================== *)

Module Py.

(** A Python [str] is a sequence of Unicode code points. *)
Abbreviation str := (list N).

(** An ASCII literal of the source as a [str]. *)
Definition lit (s : String.string) : str :=
  map Ascii.N_of_ascii (String.list_ascii_of_string s).

(** Truth value of a [str]: the empty string is falsy. *)
Definition truthy (s : str) : bool :=
  match s with [] => false | _ :: _ => true end.

(** [a < b] on [str]: lexicographic on code points, a proper prefix first. *)
Fixpoint str_ltb (a b : str) : bool :=
  match a, b with
  | _, [] => false
  | [], _ :: _ => true
  | x :: a', y :: b' => (x <? y)%N || ((x =? y)%N && str_ltb a' b')
  end.

Definition str_lt (a b : str) : Prop := str_ltb a b = true.

Fixpoint str_eqb (a b : str) : bool :=
  match a, b with
  | [], [] => true
  | x :: a', y :: b' => (x =? y)%N && str_eqb a' b'
  | _, _ => false
  end.

(** ** [sorted]

    [list.sort] is a stable sort that compares with [<] only.  Any stable
    sort returns the same list; this one inserts from the right, placing an
    element before the first one that is not smaller than it. *)
Section Sorting.
Context {A : Type} (ltb : A -> A -> bool).

Fixpoint insert_sorted (x : A) (l : list A) : list A :=
  match l with
  | [] => [x]
  | y :: l' => if ltb y x then y :: insert_sorted x l' else x :: y :: l'
  end.

Definition sorted_by (l : list A) : list A :=
  foldr insert_sorted [] l.

(** The order a stable sort leaves between two elements: smaller first,
    and elements that compare equal in the order [T] they had before. *)
Definition sorted_rel (T : relation A) : relation A :=
  fun a b => ltb a b = true \/ (ltb b a = false /\ T a b).

(** [sorted(l, key=..., reverse=True)]: CPython reverses the list, sorts
    it, and reverses the result, which keeps the sort stable. *)
Definition sorted_by_reverse (l : list A) : list A :=
  reverse (sorted_by (reverse l)).
End Sorting.

(** [sorted(xs)] on strings. *)
Definition sorted (l : list str) : list str := sorted_by str_ltb l.

(** [sorted(xs, key=key, reverse=True)] with an integer key. *)
Definition sorted_key_reverse {A} (key : A -> nat) (l : list A) : list A :=
  sorted_by_reverse (fun a b => key a <? key b) l.

(** ** [str.split(sep)] for a one-character separator *)
Fixpoint split (sep : N) (s : str) : list str :=
  match s with
  | [] => [[]]
  | c :: s' =>
      if (c =? sep)%N then [] :: split sep s'
      else match split sep s' with
           | w :: ws => (c :: w) :: ws
           | [] => [[c]]
           end
  end.

(** [s.count(c)] for a one-character [c]. *)
Definition count (c : N) (s : str) : nat :=
  length (filter (fun x => x = c) s).

(** ** [str.replace(old, new)] for a one-character [old] *)
Definition replace (old : N) (new : str) (s : str) : str :=
  flat_map (fun c => if (c =? old)%N then new else [c]) s.

(** ** [strip] *)
Fixpoint lstrip_by (p : N -> bool) (s : str) : str :=
  match s with
  | [] => []
  | c :: s' => if p c then lstrip_by p s' else s
  end.

Definition rstrip_by (p : N -> bool) (s : str) : str :=
  reverse (lstrip_by p (reverse s)).

Definition strip_by (p : N -> bool) (s : str) : str :=
  rstrip_by p (lstrip_by p s).

(** Code points for which [str.isspace] holds (CPython's
    [_PyUnicode_IsWhitespace]). *)
Definition is_whitespace (c : N) : bool :=
  ((9 <=? c) && (c <=? 13) || (28 <=? c) && (c <=? 32)
   || (c =? 133) || (c =? 160) || (c =? 5760)
   || (8192 <=? c) && (c <=? 8202)
   || (c =? 8232) || (c =? 8233) || (c =? 8239) || (c =? 8287)
   || (c =? 12288))%N.

(** [s.strip()] *)
Definition strip (s : str) : str := strip_by is_whitespace s.

(** [s.strip(chars)] and [s.rstrip(chars)] *)
Definition in_chars (chars : str) (c : N) : bool :=
  existsb (fun x => (x =? c)%N) chars.
Definition strip_chars (chars : str) (s : str) : str :=
  strip_by (in_chars chars) s.
Definition rstrip_chars (chars : str) (s : str) : str :=
  rstrip_by (in_chars chars) s.

(** ** [needle in s] *)
Fixpoint startswith (p s : str) : bool :=
  match p, s with
  | [], _ => true
  | _ :: _, [] => false
  | x :: p', y :: s' => (x =? y)%N && startswith p' s'
  end.

Fixpoint contains (needle s : str) : bool :=
  startswith needle s ||
  match s with
  | [] => false
  | _ :: s' => contains needle s'
  end.

(** ** Exceptions and the statement monad

    A statement runs in a state and either completes with a value or
    raises. *)
Section Monad.
Context {St E : Type}.

Definition M (A : Type) : Type := St -> (A + E) * St.

Definition ret {A} (a : A) : M A := fun st => (inl a, st).
Definition raise {A} (e : E) : M A := fun st => (inr e, st).
Definition bind {A B} (m : M A) (k : A -> M B) : M B :=
  fun st =>
    match m st with
    | (inl a, st') => k a st'
    | (inr e, st') => (inr e, st')
    end.
(** [try: body  except Exception as e: handler(e)] *)
Definition try_except {A} (body : M A) (handler : E -> M A) : M A :=
  fun st =>
    match body st with
    | (inl a, st') => (inl a, st')
    | (inr e, st') => handler e st'
    end.
(** [for x in xs: acc = body(x, acc)] *)
Fixpoint for_each {X A} (xs : list X) (body : X -> A -> M A) (acc : A)
  : M A :=
  match xs with
  | [] => ret acc
  | x :: xs' => bind (body x acc) (for_each xs' body)
  end.
End Monad.

End Py.

Notation "'do' x <- m ;; k" := (Py.bind m (fun x => k))
  (at level 100, x name, m at level 90, k at level 200, right associativity).
Notation "'exec' m ;; k" := (Py.bind m (fun _ => k))
  (at level 100, m at level 90, k at level 200, right associativity).

Import Py.

(* ===================================================================== *)
(** * The part of [datetime] used by the file check *)
(* ===================================================================== *)

Module Datetime.

(** A [datetime] value; [tzinfo] is the fixed UTC offset in microseconds of
    an aware value ([timezone(timedelta)]), [None] for a naive one. *)
Record datetime : Type := mk_datetime {
  year : Z; month : Z; day : Z;
  hour : Z; minute : Z; second : Z; microsecond : Z;
  tzinfo : option Z
}.

(** [dt.replace(microsecond=us)] *)
Definition replace_microsecond (dt : datetime) (us : Z) : datetime :=
  {| year := year dt; month := month dt; day := day dt;
     hour := hour dt; minute := minute dt; second := second dt;
     microsecond := us; tzinfo := tzinfo dt |}.

Definition is_leap (y : Z) : bool :=
  ((y mod 4 =? 0) && (negb (y mod 100 =? 0) || (y mod 400 =? 0)))%Z.

Definition days_before_year (y : Z) : Z :=
  let y' := (y - 1)%Z in (y' * 365 + y' / 4 - y' / 100 + y' / 400)%Z.

Definition days_in_month (y m : Z) : Z :=
  (if (m =? 2) && is_leap y then 29
   else nth (Z.to_nat m) [0; 31; 28; 31; 30; 31; 30; 31; 31; 30; 31; 30; 31] 0)%Z.

Definition days_before_month (y m : Z) : Z :=
  (nth (Z.to_nat m) [0; 0; 31; 59; 90; 120; 151; 181; 212; 243; 273; 304; 334] 0
   + (if (2 <? m) && is_leap y then 1 else 0))%Z.

Definition ymd_to_ord (y m d : Z) : Z :=
  (days_before_year y + days_before_month y m + d)%Z.

(** Equality of the calendar fields (what CPython compares with [memcmp]). *)
Definition fields_eqb (a b : datetime) : bool :=
  ((year a =? year b) && (month a =? month b) && (day a =? day b)
   && (hour a =? hour b) && (minute a =? minute b)
   && (second a =? second b) && (microsecond a =? microsecond b))%Z.

(** The instant of an aware value, in microseconds, its offset taken off. *)
Definition utc_microseconds (a : datetime) (offset : Z) : Z :=
  (((ymd_to_ord (year a) (month a) (day a) * 86400
     + hour a * 3600 + minute a * 60 + second a) * 1000000
    + microsecond a) - offset)%Z.

(** [a != b].  Two naive values, or two aware values with the same offset,
    compare by their fields; two aware values with different offsets by
    their instants; a naive and an aware value are never equal (and [!=]
    does not raise). *)
Definition ne (a b : datetime) : bool :=
  match tzinfo a, tzinfo b with
  | None, None => negb (fields_eqb a b)
  | Some oa, Some ob =>
      if (oa =? ob)%Z then negb (fields_eqb a b)
      else negb (utc_microseconds a oa =? utc_microseconds b ob)%Z
  | _, _ => true
  end.

(** Two values that differ at most in their sub-second part. *)
Definition same_second (a b : datetime) : Prop :=
  year a = year b /\ month a = month b /\ day a = day b /\
  hour a = hour b /\ minute a = minute b /\ second a = second b /\
  tzinfo a = tzinfo b.

End Datetime.

Import Datetime.

(* ===================================================================== *)
(** * [scripts/rclone_papi.py] *)
(* ===================================================================== *)

Definition slash : N := 47.
Definition backslash : N := 92.
Definition dquote : N := 34.
Definition upper_Z : N := 90.

(** [str(n)] for a count. *)
Definition str_of_nat (n : nat) : str :=
  lit (DecimalString.NilZero.string_of_uint (Nat.to_uint n)).

(** One line of the run log: [logging.info], [.warning], [.error]. *)
Inductive level : Type := INFO | WARNING | ERROR.
Definition log_line : Type := (level * str)%type.

(** What the handler reads of a caught exception: [str(e)], and the text of
    [e.__context__.stderr] when the context has that attribute. *)
Record exn : Type := mk_exn {
  exn_str : str;
  exn_context_stderr : option str
}.

(** One entry of an [lsjson] listing. *)
Record ls_item : Type := mk_ls_item { Path : str; IsDir : bool }.

(** [collect_structure]: [set(item['Path'] for item in listing if item['IsDir'])] *)
Definition collect_structure (listing : list ls_item) : gset str :=
  list_to_set (map Path (List.filter IsDir listing)).

(** Path depth, the sort key of the purge order: [len(p.split('/'))]. *)
Definition depth (p : str) : nat := length (split slash p).

(** Step 4: the two difference lists. *)
Definition to_create (source_list target_structure : gset str) : list str :=
  sorted (elements (source_list ∖ target_structure)).
Definition to_delete (source_list target_structure : gset str) : list str :=
  sorted (elements (target_structure ∖ source_list)).

(** Step 6: the purge order, deepest first. *)
Definition sorted_to_delete (source_list target_structure : gset str)
  : list str :=
  sorted_key_reverse depth (to_delete source_list target_structure).

(** [a] is a proper ancestor directory of [p]: [p] is [a + "/" + rest]. *)
Definition is_ancestor (a p : str) : bool := startswith (a ++ [slash]) p.

(** The purge order leaves out every path that has an ancestor among the
    paths to delete. *)
Definition no_redundant_children (source_list target_structure : gset str)
  : Prop :=
  forall a p,
    a ∈ to_delete source_list target_structure ->
    is_ancestor a p = true ->
    p ∉ sorted_to_delete source_list target_structure.

Section ListCheck.
(** [str.lower], and the outside world behind [rclone.impl._run]. *)
Context (lower : str -> str).
Context {World : Type}.
Context (rclone_run : list str -> World -> (unit + exn) * World).

Record run_state : Type := mk_run_state {
  world : World;
  log : list log_line
}.

Definition logging (lv : level) (msg : str) : M (St:=run_state) (E:=exn) unit :=
  fun st => (inl tt, {| world := world st; log := log st ++ [(lv, msg)] |}).

(** [rclone.impl._run(cmd, check=True, capture=True)] *)
Definition _run (cmd : list str) : M (St:=run_state) (E:=exn) unit :=
  fun st =>
    let '(r, w) := rclone_run cmd (world st) in
    (r, {| world := w; log := log st |}).

(** The text the handler inspects. *)
Definition error_msg (e : exn) : str :=
  let error_msg := lower (exn_str e) in
  match exn_context_stderr e with
  | Some stderr =>
      error_msg ++ lit " (stderr: "%string ++ stderr ++ lit ")"%string
  | None => error_msg
  end.

Definition full_dst_path (root_dst rel_path : str) : str :=
  rstrip_chars (lit "/"%string) (root_dst ++ lit "/"%string ++ rel_path).

(** The [except Exception as e] branch of the purge loop. *)
Definition purge_failed (full_dst_path : str) (e : exn)
  : M (St:=run_state) (E:=exn) unit :=
  let error_msg := error_msg e in
  if contains (lit "directory not empty"%string) error_msg then
    logging WARNING
      (lit "Skipped non-empty folder "%string ++ full_dst_path
         ++ lit ": "%string ++ error_msg)
  else if contains (lit "not found"%string) error_msg
          || contains (lit "exit status 3"%string) error_msg then
    logging WARNING
      (lit "Folder already deleted or not found "%string ++ full_dst_path
         ++ lit ": "%string ++ error_msg)
  else
    logging ERROR
      (lit "Failed to delete "%string ++ full_dst_path
         ++ lit ": "%string ++ error_msg).

(** The body of [for rel_path in sorted_to_delete]. *)
Definition purge_item (root_dst rel_path : str) (deleted_count : nat)
  : M (St:=run_state) (E:=exn) nat :=
  let full_dst_path := full_dst_path root_dst rel_path in
  try_except
    (exec _run [lit "purge"%string; full_dst_path] ;;
     exec logging INFO
       (lit "Purged folder and contents: "%string ++ full_dst_path) ;;
     ret (deleted_count + 1))
    (fun e => exec purge_failed full_dst_path e ;; ret deleted_count).

Definition purge_loop (root_dst : str) (sorted_to_delete : list str)
  : M (St:=run_state) (E:=exn) nat :=
  for_each sorted_to_delete (purge_item root_dst) 0.

(** [complete_list_check] from step 4 on, the two structures collected. *)
Definition complete_list_check (root_dst : str) (dry_run : bool)
    (source_list target_structure : gset str)
  : M (St:=run_state) (E:=exn) unit :=
  let to_delete := to_delete source_list target_structure in
  if dry_run then
    logging INFO
      (lit "Dry run mode: No folder creations or deletions performed."%string)
  else
    exec logging INFO (lit "Starting folder deletions purging"%string) ;;
    let sorted_to_delete := sorted_key_reverse depth to_delete in
    do deleted_count <- purge_loop root_dst sorted_to_delete ;;
    exec logging INFO
      (lit "Purged "%string ++ str_of_nat deleted_count
         ++ lit " folders successfully."%string) ;;
    logging INFO (lit "Folder structure sync completed."%string).

(** The outcomes the world gives to the purges of a list of paths, in
    order: what the loop observes. *)
Fixpoint purge_outcomes (root_dst : str) (paths : list str) (w : World)
  : list (str * (unit + exn)) :=
  match paths with
  | [] => []
  | p :: paths' =>
      let '(r, w') :=
        rclone_run [lit "purge"%string; full_dst_path root_dst p] w in
      (p, r) :: purge_outcomes root_dst paths' w'
  end.


(** The level at which the outcome of one purge is logged. *)
Definition logged_at (r : unit + exn) (lv : level) : Prop :=
  match r with
  | inl _ => lv = INFO
  | inr e =>
      let msg := error_msg e in
      (contains (lit "directory not empty"%string) msg = true -> lv = WARNING) /\
      (contains (lit "not found"%string) msg = true -> lv = WARNING) /\
      (contains (lit "exit status 3"%string) msg = true -> lv = WARNING) /\
      (contains (lit "directory not empty"%string) msg = false ->
       contains (lit "not found"%string) msg = false ->
       contains (lit "exit status 3"%string) msg = false -> lv = ERROR)
  end.

(** A purge that did not raise. *)
Definition purge_succeeded (o : str * (unit + exn)) : bool :=
  match snd o with inl _ => true | inr _ => false end.

End ListCheck.

(* ===================================================================== *)
(** * [scripts/rclone_papi_st_check.py] *)
(* ===================================================================== *)

(** An element of [source_structure] / [target_structure]. *)
Record entry : Type := mk_entry {
  path : str;
  mod_time : str;
  size : Z;
  crc : str;
  is_dir : bool
}.

Inductive diff_type : Type :=
  MISSING_IN_TARGET | MISSING_IN_SOURCE | DIFFERENT.

(** An element of [differences].  [None] in the first four fields is
    Python's [None]; in the last two it is an absent key. *)
Record difference : Type := mk_difference {
  type : diff_type;
  diff_path : str;
  source_size : option Z;
  source_modtime : option str;
  target_size : option Z;
  target_modtime : option str;
  size_different : option bool;
  modtime_different : option bool
}.

(** [{item['path']: item for item in structure}]: a later item replaces an
    earlier one with the same path. *)
Definition path_dict (structure : list entry) : gmap str entry :=
  foldl (fun d item => <[path item := item]> d) ∅ structure.

Section FileListCheck.
(** [datetime.fromisoformat]; [None] stands for [ValueError]. *)
Context (fromisoformat : str -> option datetime).

(** The [try]/[except (ValueError, TypeError)] block. *)
Definition modtime_differs (source_mod_time target_mod_time : str) : bool :=
  match fromisoformat (replace upper_Z (lit "+00:00"%string) source_mod_time) with
  | Some source_dt =>
      match fromisoformat (replace upper_Z (lit "+00:00"%string) target_mod_time) with
      | Some target_dt =>
          let source_truncated := replace_microsecond source_dt 0 in
          let target_truncated := replace_microsecond target_dt 0 in
          ne source_truncated target_truncated
      | None => negb (str_eqb source_mod_time target_mod_time)
      end
  | None => negb (str_eqb source_mod_time target_mod_time)
  end.

(** The body of [for path in sorted(all_paths)]: the records appended for
    one path. *)
Definition compare_path (source_dict target_dict : gmap str entry)
    (path : str) : list difference :=
  match source_dict !! path, target_dict !! path with
  | Some source_item, None =>
      [ {| type := MISSING_IN_TARGET; diff_path := path;
           source_size := Some (size source_item);
           source_modtime := Some (mod_time source_item);
           target_size := None; target_modtime := None;
           size_different := None; modtime_different := None |} ]
  | None, Some target_item =>
      [ {| type := MISSING_IN_SOURCE; diff_path := path;
           source_size := None; source_modtime := None;
           target_size := Some (size target_item);
           target_modtime := Some (mod_time target_item);
           size_different := None; modtime_different := None |} ]
  | Some source_item, Some target_item =>
      let size_different := negb (size source_item =? size target_item)%Z in
      let modtime_different :=
        modtime_differs (mod_time source_item) (mod_time target_item) in
      if size_different || modtime_different then
        [ {| type := DIFFERENT; diff_path := path;
             source_size := Some (size source_item);
             source_modtime := Some (mod_time source_item);
             target_size := Some (size target_item);
             target_modtime := Some (mod_time target_item);
             size_different := Some size_different;
             modtime_different := Some modtime_different |} ]
      else []
  | None, None => []
  end.

(** The loop over an already ordered list of paths. *)
Definition differences_over (source_dict target_dict : gmap str entry)
    (paths : list str) : list difference :=
  foldl (fun differences path =>
           differences ++ compare_path source_dict target_dict path)
        [] paths.

(** Step 3 of [complete_file_list_check], given the iteration order
    [order] of the set [all_paths]. *)
Definition differences_in_order (source_structure target_structure : list entry)
    (order : list str) : list difference :=
  differences_over (path_dict source_structure) (path_dict target_structure)
    (sorted order).

(** Step 3 of [complete_file_list_check]: the list [differences]. *)
Definition complete_file_list_check
    (source_structure target_structure : list entry) : list difference :=
  let source_dict := path_dict source_structure in
  let target_dict := path_dict target_structure in
  let all_paths : gset str := dom source_dict ∪ dom target_dict in
  differences_over source_dict target_dict (sorted (elements all_paths)).

End FileListCheck.

(** How often a path occurs among the emitted records. *)
Definition records_for (p : str) (differences : list difference) : nat :=
  length (filter (fun d => diff_path d = p) differences).

(** Every path of either listing occurs in exactly one record. *)
Definition every_path_has_one_record
    (fromisoformat : str -> option datetime)
    (source_structure target_structure : list entry) : Prop :=
  forall p,
    p ∈ dom (path_dict source_structure) ∪ dom (path_dict target_structure) ->
    records_for p
      (complete_file_list_check fromisoformat source_structure target_structure)
    = 1%nat.

(** An entry with another content hash. *)
Definition with_crc (h : entry -> str) (e : entry) : entry :=
  {| path := path e; mod_time := mod_time e; size := size e;
     crc := h e; is_dir := is_dir e |}.

(* ===================================================================== *)
(** * The batch reader of both scripts ([__main__]) *)
(* ===================================================================== *)

(** [row[i]] once [len(row)] has been checked. *)
Definition column (row : list str) (i : nat) : str := nth i row [].

(** The body of [for row in reader]. *)
Definition read_row (folders_to_sync : list (str * str)) (row : list str)
  : list (str * str) :=
  if (length row <? 2) || negb (truthy (strip (column row 0)))
     || negb (truthy (strip (column row 1)))
  then folders_to_sync
  else
    let src := replace backslash (lit "/"%string) (strip (column row 0)) in
    let dst := strip_chars [dquote] (strip (column row 1)) in
    folders_to_sync ++ [(src, dst)].

(** [dst] is what is left of a column when the whitespace around it, and
    then the double quotes around that, are taken off: the two runs of
    whitespace reach up to a character that is none, and [dst] neither
    starts nor ends with a double quote. *)
Definition destination_of (col dst : str) : Prop :=
  exists w1 q1 q2 w2,
    col = w1 ++ (q1 ++ dst ++ q2) ++ w2 /\
    Forall (fun c => is_whitespace c = true) w1 /\
    Forall (fun c => is_whitespace c = true) w2 /\
    (forall c, head (q1 ++ dst ++ q2) = Some c -> is_whitespace c = false) /\
    (forall c, last (q1 ++ dst ++ q2) = Some c -> is_whitespace c = false) /\
    Forall (fun c => c = dquote) q1 /\
    Forall (fun c => c = dquote) q2 /\
    head dst <> Some dquote /\ last dst <> Some dquote.

Inductive read_error : Type := StopIteration.

(** The rows that [csv.reader] yields, read into [folders_to_sync];
    [next(reader)] raises [StopIteration] when there is no header row. *)
Definition read_folders_to_sync (rows : list (list str))
  : read_error + list (str * str) :=
  match rows with
  | [] => inl StopIteration
  | _header :: rows' => inr (foldl read_row [] rows')
  end.

(* ===================================================================== *)
(** * Instances for ground examples

    The lemmas below hold for every [lower], every [fromisoformat] and
    every world.  These instances are used to evaluate the code on concrete
    inputs only. *)
(* ===================================================================== *)

(** [str.lower] on strings of ASCII characters. *)
Definition ascii_lower (s : str) : str :=
  map (fun c => if (65 <=? c) && (c <=? 90) then c + 32 else c)%N s.

(** A world that answers the successive [_run] calls from a script. *)
Definition scripted_run (cmd : list str) (w : list (unit + exn))
  : (unit + exn) * list (unit + exn) :=
  match w with
  | [] => (inl tt, [])
  | r :: w' => (r, w')
  end.

Module IsoFormat.

Definition digit (c : N) : option Z :=
  if ((48 <=? c) && (c <=? 57))%N then Some (Z.of_N c - 48)%Z else None.

(** Exactly [n] decimal digits. *)
Fixpoint digits (n : nat) (acc : Z) (s : str) : option (Z * str) :=
  match n with
  | O => Some (acc, s)
  | S n' =>
      match s with
      | [] => None
      | c :: s' => d ← digit c; digits n' (acc * 10 + d)%Z s'
      end
  end.

Definition expect (c : N) (s : str) : option str :=
  match s with
  | c' :: s' => if (c' =? c)%N then Some s' else None
  | [] => None
  end.

Definition check (b : bool) : option unit :=
  if b then Some tt else None.

(** [±HH:MM] to the end of the string, in microseconds. *)
Definition offset (s : str) : option (option Z) :=
  match s with
  | [] => Some None
  | sign :: s' =>
      sgn ← (if (sign =? 43)%N then Some 1%Z
             else if (sign =? 45)%N then Some (-1)%Z else None);
      '(oh, s1) ← digits 2 0 s';
      s2 ← expect 58 s1;
      '(om, s3) ← digits 2 0 s2;
      _ ← check (negb (truthy s3) && (oh <? 24)%Z && (om <? 60)%Z);
      Some (Some (sgn * (oh * 3600 + om * 60) * 1000000)%Z)
  end.

(** The digits of a fraction of a second: the first six are the
    microseconds, a shorter fraction is scaled, further digits are dropped. *)
Fixpoint skip_digits (s : str) : str :=
  match s with
  | c :: s' => match digit c with Some _ => skip_digits s' | None => s end
  | [] => []
  end.

Fixpoint fraction (n : nat) (acc : Z) (s : str) : Z * str :=
  match n with
  | O => (acc, skip_digits s)
  | S n' =>
      match s with
      | c :: s' =>
          match digit c with
          | Some d => fraction n' (acc * 10 + d)%Z s'
          | None => ((acc * 10 ^ Z.of_nat (S n'))%Z, s)
          end
      | [] => ((acc * 10 ^ Z.of_nat (S n'))%Z, [])
      end
  end.

(** [datetime.fromisoformat] on the layout
    [YYYY-MM-DD?HH:MM:SS[.f...][±HH:MM]], with any one character between
    date and time and a fraction of one or more digits, as CPython 3.11 and
    later read it (earlier versions take a fraction of 3 or 6 digits only).
    The other layouts of ISO 8601 are rejected here. *)
Definition fromisoformat (s : str) : option datetime :=
  '(y, s) ← digits 4 0 s;
  s ← expect 45 s;
  '(m, s) ← digits 2 0 s;
  s ← expect 45 s;
  '(d, s) ← digits 2 0 s;
  s ← match s with _ :: s' => Some s' | [] => None end;
  '(hh, s) ← digits 2 0 s;
  s ← expect 58 s;
  '(mi, s) ← digits 2 0 s;
  s ← expect 58 s;
  '(ss, s) ← digits 2 0 s;
  '(us, s) ← match s with
             | 46%N :: c :: s' =>
                 _ ← digit c; Some (fraction 6 0 (c :: s'))
             | 46%N :: [] => None
             | _ => Some (0%Z, s)
             end;
  tz ← offset s;
  _ ← check ((1 <=? y) && (1 <=? m) && (m <=? 12) && (1 <=? d)
             && (d <=? days_in_month y m)
             && (hh <? 24) && (mi <? 60) && (ss <? 60))%Z;
  Some {| year := y; month := m; day := d; hour := hh; minute := mi;
          second := ss; microsecond := us; tzinfo := tz |}.

End IsoFormat.

(* ===================================================================== *)
(** * The rest of [complete_list_check] *)
(* ===================================================================== *)

(** [str(b)] *)
Definition str_of_bool (b : bool) : str :=
  if b then lit "True"%string else lit "False"%string.

(** ["-" * n] *)
Definition dashes (n : nat) : str := repeat 45%N n.

(** An outside call that keeps a history of what it was asked, and one that
    leaves the history alone. *)
Section Recording.
Context {World Cmd R Event : Type}.

Definition recording (event : Cmd -> Event) (f : Cmd -> World -> R * World)
  : Cmd -> World * list Event -> R * (World * list Event) :=
  fun cmd s =>
    let '(r, w) := f cmd (fst s) in (r, (w, snd s ++ [event cmd])).

Definition unrecorded (f : Cmd -> World -> R * World)
  : Cmd -> World * list Event -> R * (World * list Event) :=
  fun cmd s =>
    let '(r, w) := f cmd (fst s) in (r, (w, snd s)).
End Recording.

(** A call of the outside world as a statement. *)
Definition call {World Cmd R : Type}
    (f : Cmd -> World -> (R + exn) * World) (cmd : Cmd)
  : M (St:=run_state (World:=World)) (E:=exn) R :=
  fun st =>
    let '(r, w) := f cmd (world st) in (r, {| world := w; log := log st |}).

(** The command line of one purge. *)
Definition purge_cmd (root_dst rel_path : str) : list str :=
  [lit "purge"%string; full_dst_path root_dst rel_path].

(** What [rclone.lsjson(...)] does: it returns a listing, or the attribute
    is missing, or the call raises something else. *)
Inductive lsjson_result : Type :=
  | Listing (listing : list ls_item)
  | AttributeError
  | Raised (e : exn).

Section CompleteListCheck.
Context (lower : str -> str).
Context {World : Type}.
Context (rclone_lsjson : str -> World -> lsjson_result * World).
(** [json.loads(rclone.impl._run(cmd, ...).stdout)] of the fallback. *)
Context (lsjson_fallback : list str -> World -> (list ls_item + exn) * World).
(** Writing the chunks of [f.write] to the file opened at a path. *)
Context (write_file : str * list str -> World -> (unit + exn) * World).
Context (rclone_run : list str -> World -> (unit + exn) * World).
(** The globals [log_folder] and [start_datetime]. *)
Context (log_folder start_datetime : str).

Definition side (is_source : bool) : str :=
  if is_source then lit "source"%string else lit "target"%string.

(** The nested function [collect_structure(path, is_source)]. *)
Definition collect_structure_of (path : str) (is_source : bool)
  : M (St:=run_state (World:=World)) (E:=exn) (gset str) :=
  fun st =>
    let '(r, w) := rclone_lsjson path (world st) in
    let st1 := {| world := w; log := log st |} in
    match r with
    | Listing listing =>
        (let structure := collect_structure listing in
         exec logging INFO
           (lit "Collected "%string ++ str_of_nat (base.size structure)
              ++ lit " folders from "%string ++ side is_source
              ++ lit "."%string) ;;
         ret structure) st1
    | AttributeError =>
        (let cmd := [lit "lsjson"%string; path; lit "--recursive"%string;
                     lit "--fast-list"%string; lit "--dirs-only"%string] in
         do listing <- call lsjson_fallback cmd ;;
         let structure := collect_structure listing in
         exec logging INFO
           (lit "Collected "%string ++ str_of_nat (base.size structure)
              ++ lit " folders from "%string ++ side is_source
              ++ lit " (via fallback)."%string) ;;
         ret structure) st1
    | Raised e =>
        (exec logging ERROR
           (lit "Failed to collect "%string ++ side is_source
              ++ lit " structure: "%string ++ exn_str e) ;;
         raise e) st1
    end.

(** Step 3: what is written to [folder_list.txt]. *)
Definition folder_list_chunks (root_src root_dst : str)
    (source_list target_structure : gset str) : list str :=
  [lit "ST,DRIVE,PATH"%string ++ [10%N]]
  ++ map (fun path => lit "SOURCE,"%string ++ root_src ++ lit ","%string
                        ++ path ++ [10%N])
       (sorted (elements source_list))
  ++ map (fun path => lit "TARGET,"%string ++ root_dst ++ lit ","%string
                        ++ path ++ [10%N])
       (sorted (elements target_structure)).

Definition save_folder_lists (root_src root_dst : str)
    (source_list target_structure : gset str)
  : M (St:=run_state (World:=World)) (E:=exn) unit :=
  let log_file_path :=
    log_folder ++ lit "/"%string ++ start_datetime
      ++ lit "_folder_list.txt"%string in
  try_except
    (exec call write_file
       (log_file_path,
        folder_list_chunks root_src root_dst source_list target_structure) ;;
     logging INFO (lit "Saved folder structures to "%string ++ log_file_path))
    (fun e =>
       logging ERROR (lit "Failed to save folder lists: "%string ++ exn_str e)).

(** [complete_list_check(root_src, root_dst, dry_run)] once
    [rclone = Rclone(config_path)] is set up. *)
Definition complete_list_check_run (root_src root_dst : str) (dry_run : bool)
  : M (St:=run_state (World:=World)) (E:=exn) unit :=
  exec logging INFO
    (lit "Starting folder structure check for source: "%string ++ root_src
       ++ lit " -> destination: "%string ++ root_dst
       ++ lit " (dry_run="%string ++ str_of_bool dry_run ++ lit ")"%string) ;;
  exec logging INFO (lit "Collecting source folder structure..."%string) ;;
  do source_list <- collect_structure_of root_src true ;;
  exec logging INFO (lit "Collecting target folder structure..."%string) ;;
  do target_structure <- collect_structure_of root_dst false ;;
  exec save_folder_lists root_src root_dst source_list target_structure ;;
  complete_list_check lower rclone_run root_dst dry_run
    source_list target_structure.

End CompleteListCheck.

(** ** Setting up [rclone]

    The first lines of [complete_list_check],
    [large_folder_backup_with_analysis] and [complete_file_list_check]. *)

(** [ValueError("APPDATA environment variable not found. ...")] *)
Definition appdata_missing : exn :=
  mk_exn
    (lit "APPDATA environment variable not found. Set it or hardcode the config path."%string)
    None.

(** [FileNotFoundError(f"rclone.conf not found at {config_path}. ...")] *)
Definition config_missing (config_path : str) : exn :=
  mk_exn
    (lit "rclone.conf not found at "%string ++ config_path
       ++ lit ". Create it via 'rclone config'."%string)
    None.

Section Setup.
Context {World : Type}.
(** [os.environ.get('APPDATA')] *)
Context (appdata_path : option str).
(** The text of [Path(appdata_path) / 'rclone' / 'rclone.conf']. *)
Context (config_path_of : str -> str).
(** [config_path.exists()] and [Rclone(config_path)]. *)
Context (path_exists : str -> World -> bool * World).
Context (rclone_init : str -> World -> (unit + exn) * World).

Definition rclone_setup : M (St:=run_state (World:=World)) (E:=exn) unit :=
  match appdata_path with
  | Some appdata_path =>
      if truthy appdata_path then
        let config_path := config_path_of appdata_path in
        fun st =>
          let '(found, w) := path_exists config_path (world st) in
          let st1 := {| world := w; log := log st |} in
          if found then call rclone_init config_path st1
          else raise (config_missing config_path) st1
      else raise appdata_missing
  | None => raise appdata_missing
  end.
End Setup.

(* ===================================================================== *)
(** * [large_folder_backup_with_analysis] *)
(* ===================================================================== *)

(** The members of [rclone_api.DiffType] the script names, and any other. *)
Module DiffType.
Inductive t : Type :=
  | EQUAL
  | MISSING_ON_SRC
  | MISSING_ON_DST
  | DIFFERENT
  | OTHER (name : str).

Definition name (ty : t) : str :=
  match ty with
  | EQUAL => lit "EQUAL"%string
  | MISSING_ON_SRC => lit "MISSING_ON_SRC"%string
  | MISSING_ON_DST => lit "MISSING_ON_DST"%string
  | DIFFERENT => lit "DIFFERENT"%string
  | OTHER n => n
  end.
End DiffType.


Record DiffItem : Type := mk_DiffItem {
  item_type : DiffType.t;
  item_path : str
}.

(** A result object of the copy and delete calls, with the text its
    [stderr] and its [repr] format to. *)
Record CompletedProcess : Type := mk_CompletedProcess {
  returncode : Z;
  stderr : str;
  repr : str
}.

(** [sep.join(parts)] *)
Fixpoint str_join (sep : str) (parts : list str) : str :=
  match parts with
  | [] => []
  | [p] => p
  | p :: parts' => p ++ sep ++ str_join sep parts'
  end.

(** [repr] of a list of result objects, as an f-string prints it. *)
Definition repr_list (l : list CompletedProcess) : str :=
  lit "["%string ++ str_join (lit ", "%string) (map repr l) ++ lit "]"%string.

(** Truth value of a list. *)
Definition nonempty {A : Type} (l : list A) : bool :=
  match l with [] => false | _ :: _ => true end.


(** The body of [for item in diffs] in [perform_sync]. *)
Definition plan_item (root_dst : str) (plan : list str * list str)
    (item : DiffItem) : list str * list str :=
  let '(to_copy, to_delete) := plan in
  match item_type item with
  | DiffType.MISSING_ON_DST | DiffType.DIFFERENT =>
      (to_copy ++ [item_path item], to_delete)
  | DiffType.MISSING_ON_SRC =>
      (to_copy, to_delete ++ [root_dst ++ lit "/"%string ++ item_path item])
  | _ => plan
  end.

(** [to_copy] and [to_delete] after the loop. *)
Definition plan_sync (root_dst : str) (diffs : list DiffItem)
  : list str * list str :=
  foldl (plan_item root_dst) ([], []) diffs.

(** The calls [perform_sync] makes. *)
Inductive sync_call : Type :=
  | CopyFiles (src dst : str) (files : list str)
  | DeleteFiles (files : list str).

(** The calls of one [perform_sync]. *)
Definition sync_calls (root_src root_dst : str) (diffs : list DiffItem)
  : list sync_call :=
  let '(to_copy, to_delete) := plan_sync root_dst diffs in
  (if nonempty to_copy then [CopyFiles root_src root_dst to_copy] else [])
  ++ (if nonempty to_delete then [DeleteFiles to_delete] else []).

Section Backup.
Context (lower : str -> str).
Context {World : Type}.
Context (rclone_diff : str * str -> World -> (list DiffItem + exn) * World).
(** [rclone.copy_files] and [rclone.delete_files]; the tuning values of the
    configuration are handed on as they are. *)
Context (copy_files
         : str * str * list str -> World
           -> (list CompletedProcess + exn) * World).
Context (delete_files
         : list str -> World -> (CompletedProcess + exn) * World).
(** What the set-up of [rclone] reads and calls. *)
Context (appdata_path : option str).
Context (config_path_of : str -> str).
Context (path_exists : str -> World -> bool * World).
Context (rclone_init : str -> World -> (unit + exn) * World).




(** The nested function [perform_sync()].  The set [needed_dirs] it also
    builds is not read afterwards. *)
Definition perform_sync (root_src root_dst : str) (diffs : list DiffItem)
  : M (St:=run_state (World:=World)) (E:=exn) unit :=
  exec logging INFO (lit "Starting sync operations using diffs only"%string) ;;
  let '(to_copy, to_delete) := plan_sync root_dst diffs in
  exec logging INFO
    (lit "Planned copies/updates: "%string ++ str_of_nat (length to_copy)
       ++ lit " files"%string) ;;
  exec logging INFO
    (lit "Planned deletions: "%string ++ str_of_nat (length to_delete)
       ++ lit " files"%string) ;;
  exec (if nonempty to_copy then
          exec logging INFO
            (lit "Copying "%string ++ str_of_nat (length to_copy)
               ++ lit " files..."%string) ;;
          try_except
            (do copy_results <- call copy_files (root_src, root_dst, to_copy) ;;
             let failed :=
               List.filter (fun res => negb (returncode res =? 0)%Z)
                 copy_results in
             if nonempty failed then
               logging ERROR
                 (str_of_nat (length failed)
                    ++ lit " files failed to copy. Details: "%string
                    ++ repr_list failed)
             else logging INFO (lit "Copy completed successfully."%string))
            (fun e =>
               logging ERROR (lit "Copy operation failed: "%string ++ exn_str e))
        else ret tt) ;;
  if nonempty to_delete then
    exec logging INFO
      (lit "Deleting "%string ++ str_of_nat (length to_delete)
         ++ lit " files..."%string) ;;
    try_except
      (do delete_result <- call delete_files to_delete ;;
       if negb (returncode delete_result =? 0)%Z then
         logging ERROR
           (lit "Deletions failed: "%string ++ stderr delete_result)
       else logging INFO (lit "Deletions completed successfully."%string))
      (fun e =>
         logging ERROR (lit "Deletion operation failed: "%string ++ exn_str e))
  else ret tt.



End Backup.

(* ===================================================================== *)
(** * The batch loop of [__main__] *)
(* ===================================================================== *)

Section Main.
Context {World : Type}.
(** The calls made for one pair: [complete_list_check] and
    [large_folder_backup_with_analysis] in [rclone_papi.py],
    [complete_file_list_check] in [rclone_papi_st_check.py]. *)
Context (process : str -> str -> M (St:=run_state (World:=World)) (E:=exn) unit).
(** The width of the separator line, 200 in one script and 300 in the
    other. *)
Context (width : nat).

(** Reading the file: [open] or the reader may raise; [next(reader)] raises
    [StopIteration], whose text is empty, when there is no header. *)
Definition read_csv (csv : exn + list (list str))
  : M (St:=run_state (World:=World)) (E:=exn) (list (str * str)) :=
  match csv with
  | inl e => raise e
  | inr rows =>
      match read_folders_to_sync rows with
      | inl StopIteration => raise (mk_exn [] None)
      | inr folders_to_sync => ret folders_to_sync
      end
  end.

(** The body of the first [for src, dst in folders_to_sync]. *)
Definition announce_pair (pair : str * str) (_ : unit)
  : M (St:=run_state (World:=World)) (E:=exn) unit :=
  exec logging INFO (lit "Source: "%string ++ fst pair) ;;
  exec logging INFO (lit "Destination: "%string ++ snd pair) ;;
  logging INFO [].

(** The body of the second [for src, dst in folders_to_sync]. *)
Definition process_pair (pair : str * str) (_ : unit)
  : M (St:=run_state (World:=World)) (E:=exn) unit :=
  exec logging INFO (dashes width) ;;
  exec logging INFO
    (lit "Processing source: "%string ++ fst pair
       ++ lit " -> destination: "%string ++ snd pair) ;;
  process (fst pair) (snd pair).

(** The [try] block of [__main__] and its handler. *)
Definition main_batch (csv : exn + list (list str))
  : M (St:=run_state (World:=World)) (E:=exn) unit :=
  try_except
    (do folders_to_sync <- read_csv csv ;;
     if negb (nonempty folders_to_sync) then
       logging WARNING
         (lit "No valid source-target pairs found in the CSV file."%string)
     else
       exec logging INFO (lit "Folders to process:"%string) ;;
       exec for_each folders_to_sync announce_pair tt ;;
       for_each folders_to_sync process_pair tt)
    (fun e =>
       logging ERROR
         (lit "Error reading or processing CSV file: "%string ++ exn_str e)).

End Main.

(** A record with the roles of source and target exchanged. *)
Definition swap_difference (d : difference) : difference :=
  {| type := match type d with
             | MISSING_IN_TARGET => MISSING_IN_SOURCE
             | MISSING_IN_SOURCE => MISSING_IN_TARGET
             | DIFFERENT => DIFFERENT
             end;
     diff_path := diff_path d;
     source_size := target_size d;
     source_modtime := target_modtime d;
     target_size := source_size d;
     target_modtime := source_modtime d;
     size_different := size_different d;
     modtime_different := modtime_different d |}.

(* ===================================================================== *)
(** * Outcomes of the listing calls, and further instances *)
(* ===================================================================== *)

Section Listed.
Context {World : Type}.
Context (rclone_lsjson : str -> World -> lsjson_result * World).
Context (lsjson_fallback : list str -> World -> (list ls_item + exn) * World).

(** From world [w] the listing of [path] is obtained, by the method or by
    the fallback command, and leaves world [w']. *)
Definition listed (path : str) (w : World) (listing : list ls_item)
    (w' : World) : Prop :=
  rclone_lsjson path w = (Listing listing, w') \/
  exists w0,
    rclone_lsjson path w = (AttributeError, w0) /\
    lsjson_fallback
      [lit "lsjson"%string; path; lit "--recursive"%string;
       lit "--fast-list"%string; lit "--dirs-only"%string] w0
    = (inl listing, w').

(** From world [w] the listing of [path] raises [e], in the method or in
    the fallback command, and leaves world [w']. *)
Definition listing_fails (path : str) (w : World) (e : exn) (w' : World)
  : Prop :=
  rclone_lsjson path w = (Raised e, w') \/
  exists w0,
    rclone_lsjson path w = (AttributeError, w0) /\
    lsjson_fallback
      [lit "lsjson"%string; path; lit "--recursive"%string;
       lit "--fast-list"%string; lit "--dirs-only"%string] w0
    = (inr e, w').
End Listed.

(** [complete_list_check(root_src, root_dst, dry_run)] *)
Definition complete_list_check_full
    (lower : str -> str) {World : Type}
    (appdata_path : option str) (config_path_of : str -> str)
    (path_exists : str -> World -> bool * World)
    (rclone_init : str -> World -> (unit + exn) * World)
    (rclone_lsjson : str -> World -> lsjson_result * World)
    (lsjson_fallback : list str -> World -> (list ls_item + exn) * World)
    (write_file : str * list str -> World -> (unit + exn) * World)
    (rclone_run : list str -> World -> (unit + exn) * World)
    (log_folder start_datetime root_src root_dst : str) (dry_run : bool)
  : M (St:=run_state (World:=World)) (E:=exn) unit :=
  exec rclone_setup appdata_path config_path_of path_exists rclone_init ;;
  complete_list_check_run lower rclone_lsjson lsjson_fallback write_file
    rclone_run log_folder start_datetime root_src root_dst dry_run.

(** The calls [complete_list_check] makes once [rclone] is set up: of the
    method [rclone.lsjson], of [rclone.impl._run] (the fallback listing and
    the purges), and the writing of the folder list. *)
Inductive outside_call : Type :=
  | LsjsonCall (path : str)
  | RunCall (cmd : list str)
  | WriteFile (file : str) (chunks : list str).

(** The command line of the fallback listing. *)
Definition lsjson_cmd (path : str) : list str :=
  [lit "lsjson"%string; path; lit "--recursive"%string;
   lit "--fast-list"%string; lit "--dirs-only"%string].

(** The calls of one [collect_structure(path, ...)] from world [w]: the
    method, and the fallback command when the method is missing. *)
Definition listing_calls {World : Type}
    (rclone_lsjson : str -> World -> lsjson_result * World)
    (path : str) (w : World) : list outside_call :=
  LsjsonCall path
  :: match fst (rclone_lsjson path w) with
     | AttributeError => [RunCall (lsjson_cmd path)]
     | _ => []
     end.

(** The one file [complete_list_check] writes. *)
Definition folder_list_path (log_folder start_datetime : str) : str :=
  log_folder ++ lit "/"%string ++ start_datetime
    ++ lit "_folder_list.txt"%string.

(** A call that [complete_list_check] may make: a listing of one of the two
    roots, the folder list, or, unless it is a dry run, the purge of a
    path joined to the destination root. *)
Definition allowed_call (log_folder start_datetime root_src root_dst : str)
    (dry_run : bool) (c : outside_call) : Prop :=
  match c with
  | LsjsonCall path => path = root_src \/ path = root_dst
  | RunCall cmd =>
      cmd = lsjson_cmd root_src \/ cmd = lsjson_cmd root_dst \/
      (dry_run = false /\ exists p, cmd = purge_cmd root_dst p)
  | WriteFile file _ => file = folder_list_path log_folder start_datetime
  end.

(** A machine on which [rclone] is set up. *)
Definition example_appdata : option str :=
  Some (lit "C:\Users\me\AppData\Roaming"%string).

Definition example_config_path (appdata_path : str) : str :=
  appdata_path ++ lit "\rclone\rclone.conf"%string.

Definition example_exists (path : str) (w : list (unit + exn))
  : bool * list (unit + exn) :=
  (true, w).

Definition example_init (config_path : str) (w : list (unit + exn))
  : (unit + exn) * list (unit + exn) :=
  (inl tt, w).

(** A remote with two locations, [src:] and [dst:]; any other location
    cannot be listed. *)
Definition example_lsjson (path : str) (w : list (unit + exn))
  : lsjson_result * list (unit + exn) :=
  if str_eqb path (lit "src:"%string) then
    (Listing [mk_ls_item (lit "a"%string) true], w)
  else if str_eqb path (lit "dst:"%string) then
    (Listing [mk_ls_item (lit "a"%string) true;
              mk_ls_item (lit "b"%string) true;
              mk_ls_item (lit "b/c"%string) true;
              mk_ls_item (lit "f.txt"%string) false], w)
  else (Raised (mk_exn (lit "directory not found"%string) None), w).

Definition example_fallback (cmd : list str) (w : list (unit + exn))
  : (list ls_item + exn) * list (unit + exn) :=
  (inr (mk_exn (lit "exit status 1"%string) None), w).

Definition example_write (file : str * list str) (w : list (unit + exn))
  : (unit + exn) * list (unit + exn) :=
  (inl tt, w).

(** Processing that fails for the source [bad:]. *)
Definition example_process (src dst : str)
  : M (St:=run_state (World:=unit)) (E:=exn) unit :=
  if str_eqb src (lit "bad:"%string) then
    raise (mk_exn (lit "listing failed"%string) None)
  else logging INFO (lit "done "%string ++ src).

(* ===================================================================== *)
(** * The difference report of [complete_file_list_check] *)
(* ===================================================================== *)

Definition comma : N := 44.

(** [str(n)] of an integer. *)
Definition str_of_Z (z : Z) : str :=
  lit (DecimalString.NilZero.string_of_int (Z.to_int z)).

(** How an f-string prints a size, a time and the name of a type. *)
Definition format_size (o : option Z) : str :=
  match o with Some z => str_of_Z z | None => lit "None"%string end.

Definition format_modtime (o : option str) : str :=
  match o with Some s => s | None => lit "None"%string end.

Definition diff_type_name (t : diff_type) : str :=
  match t with
  | MISSING_IN_TARGET => lit "MISSING_IN_TARGET"%string
  | MISSING_IN_SOURCE => lit "MISSING_IN_SOURCE"%string
  | DIFFERENT => lit "DIFFERENT"%string
  end.

(** [diff.get(key, False)] of the two flags. *)
Definition flag (o : option bool) : bool :=
  match o with Some b => b | None => false end.

(** One line of [st_check_difflist.txt]. *)
Definition difflist_row (diff : difference) : str :=
  let size_diff := flag (size_different diff) in
  let modtime_diff := flag (modtime_different diff) in
  diff_type_name (type diff) ++ [comma] ++ diff_path diff ++ [comma]
  ++ format_size (source_size diff) ++ [comma]
  ++ format_modtime (source_modtime diff) ++ [comma]
  ++ format_size (target_size diff) ++ [comma]
  ++ format_modtime (target_modtime diff) ++ [comma]
  ++ str_of_bool size_diff ++ [comma] ++ str_of_bool modtime_diff ++ [10%N].

(** What is written to [st_check_difflist.txt]. *)
Definition difflist_chunks (differences : list difference) : list str :=
  (lit "TYPE,PATH,SOURCE_SIZE,SOURCE_MODTIME,TARGET_SIZE,TARGET_MODTIME,SIZE_DIFF,MODTIME_DIFF"%string
     ++ [10%N])
  :: map difflist_row differences.

(* ===================================================================== *)
(** * Lemmas on the builtins *)
(* ===================================================================== *)

Section StrOrder.

Lemma str_ltb_irrefl (a : str) : str_ltb a a = false.
Proof.
  induction a as [|x a IH]; simpl; [done|].
  rewrite N.ltb_irrefl, N.eqb_refl. done.
Qed.

Lemma str_ltb_trans (a b c : str) :
  str_ltb a b = true -> str_ltb b c = true -> str_ltb a c = true.
Proof.
  revert b c. induction a as [|x a IH]; intros [|y b] [|z c]; simpl; try done.
  rewrite !orb_true_iff, !andb_true_iff, !N.ltb_lt, !N.eqb_eq.
  intros [Hxy|[-> Hab]] [Hyz|[-> Hbc]];
    [left; lia | left; lia | left; lia |].
  right; split; [done|]. by eapply IH.
Qed.

Lemma str_ltb_asym (a b : str) :
  str_ltb a b = true -> str_ltb b a = false.
Proof.
  intros Hab. destruct (str_ltb b a) eqn:Hba; [|done].
  pose proof (str_ltb_trans _ _ _ Hab Hba) as H.
  by rewrite str_ltb_irrefl in H.
Qed.

Lemma str_ltb_total (a b : str) :
  str_ltb a b = false -> str_ltb b a = false -> a = b.
Proof.
  revert b. induction a as [|x a IH]; intros [|y b]; simpl; try done.
  rewrite !orb_false_iff, !andb_false_iff, !N.ltb_ge, !N.eqb_neq.
  intros [Hxy Hab] [Hyx Hba].
  assert (x = y) as -> by lia.
  f_equal. apply IH; [destruct Hab|destruct Hba]; done.
Qed.

Lemma str_ltb_negtrans (a b c : str) :
  str_ltb a b = false -> str_ltb b c = false -> str_ltb a c = false.
Proof.
  intros Hab Hbc. destruct (str_ltb a c) eqn:Hac; [|done].
  destruct (str_ltb b a) eqn:Hba.
  - by rewrite (str_ltb_trans _ _ _ Hba Hac) in Hbc.
  - assert (a = b) as -> by by apply str_ltb_total.
    by rewrite Hac in Hbc.
Qed.

Lemma str_eqb_eq (a b : str) : str_eqb a b = true <-> a = b.
Proof.
  revert b. induction a as [|x a IH]; intros [|y b]; simpl; try done.
  rewrite andb_true_iff, N.eqb_eq, IH. split; [by intros [-> ->]|].
  intros H; by inversion H.
Qed.

Lemma str_lt_irrefl (a : str) : ~ str_lt a a.
Proof. unfold str_lt. by rewrite str_ltb_irrefl. Qed.

Lemma str_lt_trans (a b c : str) : str_lt a b -> str_lt b c -> str_lt a c.
Proof. apply str_ltb_trans. Qed.

End StrOrder.

(** ** The sort *)

Section SortingLemmas.
Context {A : Type} (ltb : A -> A -> bool).

Lemma insert_sorted_perm (x : A) (l : list A) :
  insert_sorted ltb x l ≡ₚ x :: l.
Proof.
  induction l as [|y l IH]; simpl; [done|].
  destruct (ltb y x); [|done].
  rewrite IH. apply Permutation_swap.
Qed.

Lemma sorted_by_perm (l : list A) : sorted_by ltb l ≡ₚ l.
Proof.
  induction l as [|x l IH]; simpl; [done|].
  rewrite insert_sorted_perm. by rewrite IH.
Qed.

Lemma sorted_by_reverse_perm (l : list A) : sorted_by_reverse ltb l ≡ₚ l.
Proof.
  unfold sorted_by_reverse.
  by rewrite reverse_Permutation, sorted_by_perm, reverse_Permutation.
Qed.

Section Order.
Hypothesis ltb_asym : forall a b, ltb a b = true -> ltb b a = false.
Hypothesis ltb_negtrans :
  forall a b c, ltb a b = false -> ltb b c = false -> ltb a c = false.

Lemma insert_sorted_rel (T : relation A) (x : A) (s : list A) :
  StronglySorted (sorted_rel ltb T) s -> Forall (T x) s ->
  StronglySorted (sorted_rel ltb T) (insert_sorted ltb x s).
Proof.
  induction s as [|y s IH]; simpl; intros Hs HT.
  { repeat constructor. }
  apply StronglySorted_cons in Hs as [Hy Hs].
  apply Forall_cons in HT as [HTy HT].
  destruct (ltb y x) eqn:Hyx.
  - apply StronglySorted_cons. split; [|by apply IH].
    rewrite insert_sorted_perm. constructor; [by left|done].
  - apply StronglySorted_cons. split.
    + constructor; [by right|].
      rewrite Forall_forall in Hy, HT |- *. intros z Hz.
      right. split; [|by apply HT].
      destruct (Hy z Hz) as [Hyz|[Hzy _]].
      * apply ltb_asym in Hyz. by eapply ltb_negtrans.
      * by eapply ltb_negtrans.
    + apply StronglySorted_cons. done.
Qed.

Lemma sorted_by_rel (T : relation A) (l : list A) :
  StronglySorted T l -> StronglySorted (sorted_rel ltb T) (sorted_by ltb l).
Proof.
  induction l as [|x l IH]; simpl; intros Hl.
  { constructor. }
  apply StronglySorted_cons in Hl as [Hx Hl].
  apply insert_sorted_rel; [by apply IH|].
  by rewrite sorted_by_perm.
Qed.
End Order.
End SortingLemmas.

Lemma StronglySorted_reverse {A} (R : relation A) (l : list A) :
  StronglySorted R l -> StronglySorted (flip R) (reverse l).
Proof.
  induction l as [|x l IH]; intros Hl; [constructor|].
  apply StronglySorted_cons in Hl as [Hx Hl].
  rewrite reverse_cons. apply StronglySorted_app_2; [|by apply IH|].
  - intros a b Ha Hb. apply list_elem_of_singleton in Hb as ->.
    rewrite elem_of_reverse in Ha. rewrite Forall_forall in Hx.
    by apply Hx.
  - repeat constructor.
Qed.

Lemma StronglySorted_lookup {A} (R : relation A) (l : list A) i j a b :
  StronglySorted R l -> l !! i = Some a -> l !! j = Some b -> (i < j)%nat ->
  R a b.
Proof.
  intros Hl. revert i j. induction Hl as [|x l Hl IH Hx]; intros i j Hi Hj Hij.
  { done. }
  destruct j as [|j]; [lia|]. simpl in Hj.
  destruct i as [|i]; simpl in Hi.
  - inversion Hi; subst. rewrite Forall_forall in Hx. apply Hx.
    by eapply list_elem_of_lookup_2.
  - eapply IH; [done..|lia].
Qed.

Lemma StronglySorted_impl {A} (R1 R2 : relation A) (l : list A) :
  (forall a b, a ∈ l -> b ∈ l -> R1 a b -> R2 a b) ->
  StronglySorted R1 l -> StronglySorted R2 l.
Proof.
  induction l as [|x l IH]; intros HR Hl; [constructor|].
  apply StronglySorted_cons in Hl as [Hx Hl].
  apply StronglySorted_cons. split.
  - rewrite Forall_forall in Hx |- *. intros y Hy.
    apply HR; [by left|by right|by apply Hx].
  - apply IH; [|done]. intros a b Ha Hb. apply HR; by right.
Qed.

Lemma StronglySorted_ne_NoDup {A} (l : list A) :
  NoDup l -> StronglySorted (fun a b => a <> b) l.
Proof.
  induction 1 as [|x l Hx Hl IH]; constructor; [done|].
  rewrite Forall_forall. intros y Hy ->. done.
Qed.

(** [sorted] of distinct strings is strictly ascending. *)
Lemma sorted_strictly_ascending (l : list str) :
  NoDup l -> StronglySorted str_lt (sorted l).
Proof.
  intros Hl. unfold sorted.
  eapply StronglySorted_impl;
    [|apply (sorted_by_rel str_ltb str_ltb_asym str_ltb_negtrans
               (fun a b => a <> b)); by apply StronglySorted_ne_NoDup].
  intros a b _ _ [Hab|[Hba Hne]]; [done|].
  unfold str_lt. destruct (str_ltb a b) eqn:Hab; [done|].
  destruct Hne. by apply str_ltb_total.
Qed.

Lemma sorted_elem_of (l : list str) (p : str) : p ∈ sorted l <-> p ∈ l.
Proof. unfold sorted. by rewrite sorted_by_perm. Qed.

Lemma str_lt_sorted_NoDup (l : list str) : StronglySorted str_lt l -> NoDup l.
Proof.
  induction 1 as [|x l Hl IH Hx]; constructor; [|done].
  intros Hin. rewrite Forall_forall in Hx.
  by apply (str_lt_irrefl x), Hx.
Qed.

(** A strictly ascending list is determined by its elements. *)
Lemma str_lt_sorted_unique (l1 l2 : list str) :
  StronglySorted str_lt l1 -> StronglySorted str_lt l2 ->
  (forall p, p ∈ l1 <-> p ∈ l2) -> l1 = l2.
Proof.
  intros H1 H2 Heq.
  apply (StronglySorted_unique_strong str_lt); [|done..|].
  - intros a b _ _ Hab Hba. unfold str_lt in *.
    apply str_ltb_asym in Hab. congruence.
  - apply NoDup_Permutation; auto using str_lt_sorted_NoDup.
Qed.

(** The result of [sorted] on a set does not depend on the order in which
    the set is iterated. *)
Lemma sorted_order_independent (l1 l2 : list str) :
  NoDup l1 -> l1 ≡ₚ l2 -> sorted l1 = sorted l2.
Proof.
  intros Hnd Hp. apply str_lt_sorted_unique.
  - by apply sorted_strictly_ascending.
  - apply sorted_strictly_ascending. by rewrite <- Hp.
  - intros p. by rewrite !sorted_elem_of, Hp.
Qed.

(** ** [split], [count], [startswith] *)

Lemma split_length (sep : N) (s : str) :
  length (split sep s) = S (count sep s).
Proof.
  unfold count. induction s as [|c s IH]; [done|]. cbn [split].
  destruct (N.eqb_spec c sep) as [->|Hne].
  - rewrite filter_cons_True by done. cbn [length]. by rewrite IH.
  - rewrite filter_cons_False by done. rewrite <- IH.
    by destruct (split sep s) as [|w ws].
Qed.

Lemma count_app (c : N) (a b : str) :
  count c (a ++ b) = (count c a + count c b)%nat.
Proof. unfold count. by rewrite filter_app, length_app. Qed.

Lemma startswith_app (p s : str) :
  startswith p s = true <-> exists r, s = p ++ r.
Proof.
  revert s. induction p as [|x p IH]; intros s; simpl.
  { split; [eauto|done]. }
  destruct s as [|y s].
  { split; [done|]. by intros [r Hr]. }
  rewrite andb_true_iff, N.eqb_eq, IH. split.
  - intros [-> [r ->]]. eauto.
  - intros [r Hr]. inversion Hr; subst. eauto.
Qed.

Lemma depth_count (p : str) : depth p = (count slash p + 1)%nat.
Proof. unfold depth. rewrite split_length. lia. Qed.

(** A path is strictly deeper than each of its ancestors. *)
Lemma is_ancestor_depth (a p : str) :
  is_ancestor a p = true -> (depth a < depth p)%nat.
Proof.
  unfold is_ancestor. rewrite startswith_app. intros [r ->].
  rewrite !depth_count, !count_app.
  assert (count slash [slash] = 1%nat) as -> by done. lia.
Qed.

(* ===================================================================== *)
(** * The directory check *)
(* ===================================================================== *)

Lemma to_create_elem_of (S D : gset str) (p : str) :
  p ∈ to_create S D <-> p ∈ S /\ p ∉ D.
Proof.
  unfold to_create. rewrite sorted_elem_of, elem_of_elements. set_solver.
Qed.

Lemma to_delete_elem_of (S D : gset str) (p : str) :
  p ∈ to_delete S D <-> p ∈ D /\ p ∉ S.
Proof.
  unfold to_delete. rewrite sorted_elem_of, elem_of_elements. set_solver.
Qed.

Lemma to_delete_ascending (S D : gset str) :
  StronglySorted str_lt (to_delete S D).
Proof. apply sorted_strictly_ascending, NoDup_elements. Qed.

Lemma sorted_to_delete_perm (S D : gset str) :
  sorted_to_delete S D ≡ₚ to_delete S D.
Proof. apply sorted_by_reverse_perm. Qed.

(** The order of the purge list: deeper first, equal depth ascending. *)
Lemma sorted_to_delete_order (S D : gset str) :
  StronglySorted
    (fun a b => (depth b < depth a)%nat \/ (depth a = depth b /\ str_lt a b))
    (sorted_to_delete S D).
Proof.
  unfold sorted_to_delete, sorted_key_reverse, sorted_by_reverse.
  set (ltk := fun a b : str => depth a <? depth b).
  assert (StronglySorted (flip (sorted_rel ltk (flip str_lt)))
            (reverse (sorted_by ltk (reverse (to_delete S D))))) as H.
  { apply StronglySorted_reverse, sorted_by_rel.
    - intros a b. unfold ltk. rewrite Nat.ltb_lt, Nat.ltb_ge. lia.
    - intros a b c. unfold ltk. rewrite !Nat.ltb_ge. lia.
    - apply StronglySorted_reverse, to_delete_ascending. }
  eapply StronglySorted_impl; [|exact H].
  intros a b _ _. unfold flip, sorted_rel, ltk.
  rewrite Nat.ltb_lt, Nat.ltb_ge. intros [Hlt|[Hge Hab]]; [by left|].
  destruct (decide (depth b < depth a)%nat); [by left|right].
  split; [lia|done].
Qed.

(** In the purge list a deeper path comes before a shallower one. *)
Lemma sorted_to_delete_deeper_first (S D : gset str) i j a b :
  sorted_to_delete S D !! i = Some a -> sorted_to_delete S D !! j = Some b ->
  (depth b < depth a)%nat -> (i < j)%nat.
Proof.
  intros Hi Hj Hd.
  destruct (decide (i < j)%nat) as [|Hge]; [done|exfalso].
  destruct (decide (i = j)) as [->|Hne].
  { rewrite Hi in Hj. inversion Hj; subst. lia. }
  pose proof (StronglySorted_lookup _ _ j i b a
                (sorted_to_delete_order S D) Hj Hi) as H.
  destruct H as [H|[H _]]; lia.
Qed.

(** C1. The directory-mode Differ: [to_create] is the strictly ascending
    list of the paths of [S − D] and [to_delete] that of [D − S], whatever
    the order in which the sets are iterated; the two lists are disjoint,
    and together with [S ∩ D] they make up [S ∪ D]. *)
Theorem directory_differ_set_difference (S D : gset str) :
  let create := to_create S D in
  let delete := to_delete S D in
  StronglySorted str_lt create /\
  (forall p, p ∈ create <-> p ∈ S ∖ D) /\
  (forall order, order ≡ₚ elements (S ∖ D) -> sorted order = create) /\
  StronglySorted str_lt delete /\
  (forall p, p ∈ delete <-> p ∈ D ∖ S) /\
  (forall order, order ≡ₚ elements (D ∖ S) -> sorted order = delete) /\
  (forall p, p ∈ create -> p ∉ delete) /\
  (list_to_set create ∪ list_to_set delete ∪ (S ∩ D) : gset str) = S ∪ D.
Proof.
  simpl. repeat split.
  - apply sorted_strictly_ascending, NoDup_elements.
  - rewrite to_create_elem_of. set_solver.
  - rewrite to_create_elem_of. set_solver.
  - intros order Hp. symmetry.
    apply sorted_order_independent; [apply NoDup_elements|done].
  - apply to_delete_ascending.
  - rewrite to_delete_elem_of. set_solver.
  - rewrite to_delete_elem_of. set_solver.
  - intros order Hp. symmetry.
    apply sorted_order_independent; [apply NoDup_elements|done].
  - intros p. rewrite to_create_elem_of, to_delete_elem_of. tauto.
  - apply set_eq. intros p.
    rewrite !elem_of_union, !elem_of_list_to_set, elem_of_intersection,
      to_create_elem_of, to_delete_elem_of.
    destruct (decide (p ∈ S)), (decide (p ∈ D)); tauto.
Qed.

(** C2. The purge order is a permutation of the paths to delete, sorted by
    depth descending, depth being the number of separators plus one: a
    deeper path always comes before a shallower one, and paths of equal
    depth come in ascending order. *)
Theorem delete_order_deepest_first (S D : gset str) :
  let delete_order := sorted_to_delete S D in
  delete_order ≡ₚ elements (D ∖ S) /\
  (forall p, depth p = (count slash p + 1)%nat) /\
  StronglySorted
    (fun a b => (depth b < depth a)%nat \/ (depth a = depth b /\ str_lt a b))
    delete_order /\
  (forall i j a b,
      delete_order !! i = Some a -> delete_order !! j = Some b ->
      (depth b < depth a)%nat -> (i < j)%nat) /\
  (forall i j a b,
      delete_order !! i = Some a -> delete_order !! j = Some b ->
      depth a = depth b -> (i < j)%nat -> str_lt a b).
Proof.
  simpl. split; [|split; [|split; [|split]]].
  - rewrite sorted_to_delete_perm. apply sorted_by_perm.
  - apply depth_count.
  - apply sorted_to_delete_order.
  - apply sorted_to_delete_deeper_first.
  - intros i j a b Hi Hj Hd Hij.
    pose proof (StronglySorted_lookup _ _ i j a b
                  (sorted_to_delete_order S D) Hi Hj Hij) as H.
    destruct H as [H|[_ H]]; [lia|done].
Qed.

(** Every destination-only path is in the purge list. *)
Lemma sorted_to_delete_elem_of (S D : gset str) (p : str) :
  p ∈ sorted_to_delete S D <-> p ∈ D /\ p ∉ S.
Proof. by rewrite sorted_to_delete_perm, to_delete_elem_of. Qed.

(** C5, as stated, fails: with [x] and [x/y] only on the destination the
    purge list is [x/y; x], the child [x/y] next to its ancestor [x]. *)
Lemma redundant_child_emitted :
  sorted_to_delete ∅ {[ lit "x"; lit "x/y" ]} = [lit "x/y"; lit "x"] /\
  ~ no_redundant_children ∅ {[ lit "x"; lit "x/y" ]}.
Proof.
  assert (sorted_to_delete ∅ {[ lit "x"; lit "x/y" ]} = [lit "x/y"; lit "x"])
    as Heq by (by vm_compute).
  split; [done|]. intros H.
  apply (H (lit "x") (lit "x/y")).
  - apply to_delete_elem_of. clear. set_solver.
  - by vm_compute.
  - rewrite Heq. by left.
Qed.

(** C5, amended. The purge list keeps every destination-only path, children
    of destination-only directories included; such a child comes before
    its ancestor. *)
Theorem delete_order_child_before_ancestor (S D : gset str) (a p : str) :
  a ∈ D ∖ S -> p ∈ D ∖ S -> is_ancestor a p = true ->
  exists i j,
    sorted_to_delete S D !! i = Some p /\
    sorted_to_delete S D !! j = Some a /\
    (i < j)%nat.
Proof.
  intros Ha Hp Hanc.
  assert (a ∈ sorted_to_delete S D) as Ha'
    by (apply sorted_to_delete_elem_of; set_solver).
  assert (p ∈ sorted_to_delete S D) as Hp'
    by (apply sorted_to_delete_elem_of; set_solver).
  apply list_elem_of_lookup in Ha' as [j Hj].
  apply list_elem_of_lookup in Hp' as [i Hi].
  exists i, j. split; [done|split; [done|]].
  eapply sorted_to_delete_deeper_first; [done..|].
  by apply is_ancestor_depth.
Qed.

Lemma delete_order_child_before_ancestor_witness :
  exists i j,
    sorted_to_delete ∅ {[ lit "x"; lit "x/y" ]} !! i = Some (lit "x/y") /\
    sorted_to_delete ∅ {[ lit "x"; lit "x/y" ]} !! j = Some (lit "x") /\
    (i < j)%nat.
Proof.
  apply (delete_order_child_before_ancestor ∅ {[ lit "x"; lit "x/y" ]}
           (lit "x") (lit "x/y")).
  - set_solver.
  - set_solver.
  - reflexivity.
Defined.

(** ** The purge loop *)

Section PurgeLoop.
Context (lower : str -> str).
Context {World : Type}.
Context (rclone_run : list str -> World -> (unit + exn) * World).

Let St := run_state (World:=World).

Lemma purge_item_step (root_dst rel_path : str) (count : nat) (st : St) :
  let cmd := [lit "purge"; full_dst_path root_dst rel_path] in
  let r := fst (rclone_run cmd (world st)) in
  exists lv msg,
    purge_item lower rclone_run root_dst rel_path count st =
      (inl (match r with inl _ => count + 1 | inr _ => count end)%nat,
       {| world := snd (rclone_run cmd (world st));
          log := log st ++ [(lv, msg)] |}) /\
    logged_at lower r lv.
Proof.
  simpl. unfold purge_item, try_except, bind, _run, logging, ret.
  destruct (rclone_run _ (world st)) as [[[]|e] w'] eqn:Hrun; simpl.
  { eexists _, _. split; [reflexivity|done]. }
  unfold purge_failed, logging.
  destruct (contains (lit "directory not empty") _) eqn:H1; simpl.
  { eexists _, _. split; [reflexivity|]. repeat split; congruence. }
  destruct (contains (lit "not found") _) eqn:H2; simpl.
  { eexists _, _. split; [reflexivity|]. repeat split; congruence. }
  destruct (contains (lit "exit status 3") _) eqn:H3; simpl.
  { eexists _, _. split; [reflexivity|]. repeat split; congruence. }
  eexists _, _. split; [reflexivity|]. repeat split; congruence.
Qed.

Lemma for_each_purge (root_dst : str) (paths : list str) (count : nat)
    (st : St) :
  exists n st' lines,
    for_each paths (purge_item lower rclone_run root_dst) count st
      = (inl n, st') /\
    log st' = log st ++ lines /\
    Forall2 (fun o line => logged_at lower (snd o) (fst line))
      (purge_outcomes rclone_run root_dst paths (world st)) lines /\
    n = (count + length (List.filter purge_succeeded
                           (purge_outcomes rclone_run root_dst paths
                              (world st))))%nat.
Proof.
  revert count st. induction paths as [|p paths IH]; intros count st.
  { exists count, st, []. simpl. rewrite app_nil_r.
    repeat split; [constructor|lia]. }
  destruct (purge_item_step root_dst p count st) as (lv & msg & Hstep & Hlv).
  simpl in Hstep, Hlv. cbn [for_each purge_outcomes]. unfold bind at 1.
  rewrite Hstep.
  destruct (rclone_run _ (world st)) as [r w'] eqn:Hrun. simpl in *.
  edestruct IH as (n & st' & lines & Hloop & Hlog & Hall & Hn).
  exists n, st', ((lv, msg) :: lines).
  split; [exact Hloop|]. simpl in *.
  split; [by rewrite Hlog, <- app_assoc|].
  split; [by constructor|].
  destruct r as [[]|e]; simpl; lia.
Qed.

Lemma purge_outcomes_paths (root_dst : str) (paths : list str) (w : World) :
  map fst (purge_outcomes rclone_run root_dst paths w) = paths.
Proof.
  revert w. induction paths as [|p paths IH]; intros w; simpl; [done|].
  destruct (rclone_run _ w) as [r w']. simpl. by rewrite IH.
Qed.
End PurgeLoop.

(** C7. A purge that fails is logged once, as a warning when the error text
    contains "directory not empty", "not found" or "exit status 3" and as
    an error otherwise, and is not counted; the loop then goes on with the
    next path, and neither the loop nor [complete_list_check] raises. *)
Theorem purge_failures_triaged
    (lower : str -> str) {World : Type}
    (rclone_run : list str -> World -> (unit + exn) * World)
    (root_dst : str) :
  (forall rel_path count (st : run_state),
      let cmd := [lit "purge"; full_dst_path root_dst rel_path] in
      let r := fst (rclone_run cmd (world st)) in
      exists lv msg,
        purge_item lower rclone_run root_dst rel_path count st =
          (inl (match r with inl _ => count + 1 | inr _ => count end)%nat,
           {| world := snd (rclone_run cmd (world st));
              log := log st ++ [(lv, msg)] |}) /\
        logged_at lower r lv) /\
  (forall paths (st : run_state),
      let outcomes := purge_outcomes rclone_run root_dst paths (world st) in
      exists n st' lines,
        purge_loop lower rclone_run root_dst paths st = (inl n, st') /\
        log st' = log st ++ lines /\
        map fst outcomes = paths /\
        Forall2 (fun o line => logged_at lower (snd o) (fst line))
          outcomes lines /\
        n = length (List.filter purge_succeeded outcomes)) /\
  (forall dry_run S D (st : run_state),
      exists st',
        complete_list_check lower rclone_run root_dst dry_run S D st
          = (inl tt, st')).
Proof.
  split; [|split].
  - intros rel_path count st. apply purge_item_step.
  - intros paths st. simpl.
    destruct (for_each_purge lower rclone_run root_dst paths 0 st)
      as (n & st' & lines & Hloop & Hlog & Hall & Hn).
    exists n, st', lines. rewrite purge_outcomes_paths. done.
  - intros dry_run S D st. unfold complete_list_check.
    destruct dry_run; [by eexists|].
    destruct (for_each_purge lower rclone_run root_dst
                (sorted_key_reverse depth (to_delete S D)) 0
                {| world := world st;
                   log := log st
                            ++ [(INFO, lit "Starting folder deletions purging")] |})
      as (n & st' & lines & Hloop & _).
    unfold purge_loop, bind, logging in *. simpl. rewrite Hloop.
    by eexists.
Qed.

(** Paths of depth 1, 2 and 3: the deepest is purged first. *)
Example purge_order_by_depth :
  sorted_to_delete {[ lit "keep" ]}
    {[ lit "a"; lit "a/b"; lit "a/b/c"; lit "d"; lit "keep" ]}
  = [lit "a/b/c"; lit "a/b"; lit "a"; lit "d"].
Proof. by vm_compute. Qed.

(** A run in which every purge fails, each in a different way. *)
Example purge_three_failures :
  let script :=
    [inr (mk_exn (lit "ERROR : Directory Not Empty") None);
     inr (mk_exn (lit "rclone: exit status 3") (Some (lit "None")));
     inr (mk_exn (lit "permission denied") None)] in
  let '(r, st) :=
    purge_loop ascii_lower scripted_run (lit "dst:")
      [lit "a/b"; lit "a"; lit "c"] {| world := script; log := [] |} in
  r = inl 0%nat /\ map fst (log st) = [WARNING; WARNING; ERROR].
Proof. vm_compute. done. Qed.

(* ===================================================================== *)
(** * The batch reader *)
(* ===================================================================== *)

Section Strip.
Context (p : N -> bool).

Lemma lstrip_by_split (s : str) :
  exists w, s = w ++ lstrip_by p s /\ Forall (fun c => p c = true) w.
Proof.
  induction s as [|c s (w & Hs & Hw)]; simpl.
  { by exists []. }
  destruct (p c) eqn:Hc.
  - exists (c :: w). split; [by rewrite Hs at 1|by constructor].
  - by exists [].
Qed.

Lemma lstrip_by_head (s : str) c r :
  lstrip_by p s = c :: r -> p c = false.
Proof.
  induction s as [|x s IH]; simpl; [done|].
  destruct (p x) eqn:Hx; [done|]. by intros [= <- _].
Qed.

Lemma lstrip_by_all (s : str) :
  Forall (fun c => p c = true) s -> lstrip_by p s = [].
Proof. induction 1 as [|c s Hc _ IH]; simpl; [done|]. by rewrite Hc. Qed.

Lemma lstrip_by_none (s : str) :
  Forall (fun c => p c = false) s -> lstrip_by p s = s.
Proof. destruct 1 as [|c s Hc _]; simpl; [done|]. by rewrite Hc. Qed.

Lemma rstrip_by_split (s : str) :
  exists w, s = rstrip_by p s ++ w /\ Forall (fun c => p c = true) w.
Proof.
  unfold rstrip_by.
  destruct (lstrip_by_split (reverse s)) as (w & Hs & Hw).
  exists (reverse w). split; [|by apply Forall_reverse].
  rewrite <- reverse_app, <- Hs. by rewrite reverse_involutive.
Qed.

Lemma rstrip_by_last (s : str) r c :
  rstrip_by p s = r ++ [c] -> p c = false.
Proof.
  unfold rstrip_by. intros H.
  apply (f_equal reverse) in H.
  rewrite reverse_involutive, reverse_app, reverse_singleton in H.
  simpl in H. by eapply lstrip_by_head.
Qed.

Lemma rstrip_by_all (s : str) :
  Forall (fun c => p c = true) s -> rstrip_by p s = [].
Proof.
  intros H. unfold rstrip_by. by rewrite lstrip_by_all by by apply Forall_reverse.
Qed.

Lemma rstrip_by_none (s : str) :
  Forall (fun c => p c = false) s -> rstrip_by p s = s.
Proof.
  intros H. unfold rstrip_by.
  rewrite lstrip_by_none by by apply Forall_reverse.
  apply reverse_involutive.
Qed.

(** [strip] removes a run of stripped characters at each end, and what is
    left neither starts nor ends with one. *)
Lemma strip_by_split (s : str) :
  exists w1 w2,
    s = w1 ++ strip_by p s ++ w2 /\
    Forall (fun c => p c = true) w1 /\ Forall (fun c => p c = true) w2 /\
    (forall c, head (strip_by p s) = Some c -> p c = false) /\
    (forall c, last (strip_by p s) = Some c -> p c = false).
Proof.
  unfold strip_by.
  destruct (lstrip_by_split s) as (w1 & Hs & Hw1).
  destruct (rstrip_by_split (lstrip_by p s)) as (w2 & Ht & Hw2).
  exists w1, w2. split; [by rewrite <- Ht|]. split; [done|split; [done|]].
  split.
  - intros c Hc.
    destruct (rstrip_by p (lstrip_by p s)) as [|c' r] eqn:Hr; [done|].
    simpl in Hc. inversion Hc; subst.
    eapply lstrip_by_head. by rewrite Ht.
  - intros c Hc. apply last_Some in Hc as [r Hr].
    by eapply rstrip_by_last.
Qed.
End Strip.

Lemma replace_char (old new : N) (s : str) :
  replace old [new] s = map (fun c => if (c =? old)%N then new else c) s.
Proof.
  unfold replace. induction s as [|c s IH]; simpl; [done|].
  rewrite IH. by destruct (c =? old)%N.
Qed.

Lemma read_rows_flat_map (rows : list (list str)) (acc : list (str * str)) :
  foldl read_row acc rows = acc ++ flat_map (read_row []) rows.
Proof.
  revert acc. induction rows as [|row rows IH]; intros acc; simpl.
  { by rewrite app_nil_r. }
  rewrite IH, app_assoc. f_equal.
  unfold read_row.
  match goal with |- context [if ?b then acc else _] => destruct b end;
    [by rewrite app_nil_r|done].
Qed.

Lemma truthy_false (s : str) : truthy s = false <-> s = [].
Proof. by destruct s. Qed.

Lemma read_row_kept (acc : list (str * str)) (row : list str) :
  (2 <= length row)%nat ->
  strip (column row 0) <> [] -> strip (column row 1) <> [] ->
  read_row acc row =
    acc ++ [(replace backslash (lit "/") (strip (column row 0)),
             strip_chars [dquote] (strip (column row 1)))].
Proof.
  intros Hlen H0 H1. unfold read_row.
  destruct (length row <? 2) eqn:Hl; [apply Nat.ltb_lt in Hl; lia|].
  destruct (truthy (strip (column row 0))) eqn:T0;
    [|by apply truthy_false in T0].
  destruct (truthy (strip (column row 1))) eqn:T1;
    [|by apply truthy_false in T1].
  done.
Qed.

Lemma read_row_skipped (acc : list (str * str)) (row : list str) :
  (length row < 2)%nat \/ strip (column row 0) = [] \/ strip (column row 1) = [] ->
  read_row acc row = acc.
Proof.
  intros H. unfold read_row.
  destruct (length row <? 2) eqn:Hl; [done|]. apply Nat.ltb_ge in Hl.
  destruct H as [H|[H|H]]; [lia|rewrite H..]; simpl; [done|].
  by rewrite orb_true_r.
Qed.

Lemma in_chars_dquote (c : N) : in_chars [dquote] c = true <-> c = dquote.
Proof.
  unfold in_chars, existsb. rewrite orb_false_r, N.eqb_eq. split; auto.
Qed.

Section StripUnique.
Context (p : N -> bool).

Lemma lstrip_by_skip (w t : str) :
  Forall (fun c => p c = true) w ->
  (forall c, head t = Some c -> p c = false) ->
  lstrip_by p (w ++ t) = t.
Proof.
  intros Hw Ht. induction Hw as [|c w Hc _ IH]; simpl.
  - destruct t as [|c t]; [done|]. simpl. by rewrite (Ht c).
  - by rewrite Hc.
Qed.

(** What [strip] returns is the only middle part that leaves a run of
    stripped characters at each end and itself has none at either end. *)
Lemma strip_by_unique (s w1 t w2 : str) :
  s = w1 ++ t ++ w2 ->
  Forall (fun c => p c = true) w1 -> Forall (fun c => p c = true) w2 ->
  (forall c, head t = Some c -> p c = false) ->
  (forall c, last t = Some c -> p c = false) ->
  strip_by p s = t.
Proof.
  intros -> Hw1 Hw2 Hhd Hlast. unfold strip_by.
  destruct t as [|c0 t0].
  { simpl. rewrite lstrip_by_all by by apply Forall_app. done. }
  rewrite lstrip_by_skip; [|done|by simpl].
  unfold rstrip_by. rewrite reverse_app, lstrip_by_skip.
  - apply reverse_involutive.
  - by apply Forall_reverse.
  - intros c. rewrite head_reverse. apply Hlast.
Qed.
End StripUnique.

Lemma destination_of_strip (col : str) :
  destination_of col (strip_chars [dquote] (strip col)).
Proof.
  destruct (strip_by_split is_whitespace col)
    as (w1 & w2 & Hcol & Hw1 & Hw2 & Hhd0 & Hlast0).
  destruct (strip_by_split (in_chars [dquote]) (strip col))
    as (q1 & q2 & Hstr & Hq1 & Hq2 & Hhd & Hlast).
  exists w1, q1, q2, w2. unfold strip_chars. rewrite <- Hstr.
  split; [exact Hcol|]. do 4 (split; [done|]).
  split; [eapply Forall_impl; [exact Hq1|]; intros c; apply in_chars_dquote|].
  split; [eapply Forall_impl; [exact Hq2|]; intros c; apply in_chars_dquote|].
  split.
  - intros Hd. apply Hhd in Hd. by rewrite (proj2 (in_chars_dquote _)) in Hd.
  - intros Hd. apply Hlast in Hd. by rewrite (proj2 (in_chars_dquote _)) in Hd.
Qed.

Lemma destination_of_unique (col dst : str) :
  destination_of col dst -> dst = strip_chars [dquote] (strip col).
Proof.
  intros (w1 & q1 & q2 & w2 & Hcol & Hw1 & Hw2 & Hhd0 & Hlast0
          & Hq1 & Hq2 & Hhd & Hlast).
  unfold strip.
  rewrite (strip_by_unique is_whitespace col w1 (q1 ++ dst ++ q2) w2)
    by done.
  symmetry. apply (strip_by_unique _ _ q1 dst q2); [done|..].
  - eapply Forall_impl; [exact Hq1|]. intros c. apply in_chars_dquote.
  - eapply Forall_impl; [exact Hq2|]. intros c. apply in_chars_dquote.
  - intros c Hc. destruct (in_chars [dquote] c) eqn:E; [|done].
    apply in_chars_dquote in E. by subst.
  - intros c Hc. destruct (in_chars [dquote] c) eqn:E; [|done].
    apply in_chars_dquote in E. by subst.
Qed.

(** C8. Reading the batch input: the header row is skipped; a row with
    fewer than two columns, or whose source or destination column is blank,
    adds nothing and raises nothing; a kept row adds one pair, whose source
    is the first column without its surrounding whitespace and with every
    backslash turned into a slash, and whose destination is the second
    column without its surrounding whitespace and, inside that, without its
    surrounding double quotes: the one string [destination_of] describes. *)
Theorem batch_rows_read :
  (forall header rows,
      read_folders_to_sync (header :: rows)
        = inr (flat_map (read_row []) rows)) /\
  (forall acc row,
      (length row < 2)%nat \/ strip (column row 0) = []
        \/ strip (column row 1) = [] ->
      read_row acc row = acc) /\
  (forall acc row,
      (2 <= length row)%nat ->
      strip (column row 0) <> [] -> strip (column row 1) <> [] ->
      exists src dst,
        read_row acc row = acc ++ [(src, dst)] /\
        src = map (fun c => if (c =? backslash)%N then slash else c)
                (strip (column row 0)) /\
        (backslash ∉ src) /\
        (exists w1 q1 q2 w2,
            column row 1 = w1 ++ q1 ++ dst ++ q2 ++ w2 /\
            Forall (fun c => is_whitespace c = true) w1 /\
            Forall (fun c => is_whitespace c = true) w2 /\
            Forall (fun c => c = dquote) q1 /\
            Forall (fun c => c = dquote) q2) /\
        head dst <> Some dquote /\ last dst <> Some dquote /\
        dst = strip_chars [dquote] (strip (column row 1)) /\
        destination_of (column row 1) dst /\
        (forall dst', destination_of (column row 1) dst' -> dst' = dst)) /\
  (forall col,
      exists w1 w2,
        col = w1 ++ strip col ++ w2 /\
        Forall (fun c => is_whitespace c = true) w1 /\
        Forall (fun c => is_whitespace c = true) w2 /\
        (forall c, head (strip col) = Some c -> is_whitespace c = false) /\
        (forall c, last (strip col) = Some c -> is_whitespace c = false)).
Proof.
  split; [|split; [|split]].
  - intros header rows. simpl. by rewrite read_rows_flat_map.
  - apply read_row_skipped.
  - intros acc row Hlen H0 H1. eexists _, _.
    split; [by apply read_row_kept|].
    split; [apply replace_char|].
    split.
    { change (lit "/") with [slash].
      rewrite replace_char, list_elem_of_fmap. intros (c & Hc & _).
      destruct (N.eqb_spec c backslash); [done|]. by subst. }
    destruct (strip_by_split is_whitespace (column row 1))
      as (w1 & w2 & Hcol & Hw1 & Hw2 & _).
    destruct (strip_by_split (in_chars [dquote]) (strip (column row 1)))
      as (q1 & q2 & Hstr & Hq1 & Hq2 & Hhd & Hlast).
    split; [|split; [|split; [|split; [|split]]]].
    + exists w1, q1, q2, w2. split; [|split; [done|split; [done|]]].
      * rewrite Hcol at 1. unfold strip at 1. rewrite Hstr at 1.
        by rewrite <- !app_assoc.
      * split; eapply Forall_impl; [exact Hq1| |exact Hq2|];
          intros c; apply in_chars_dquote.
    + intros Hd. apply Hhd in Hd. by rewrite (proj2 (in_chars_dquote _)) in Hd.
    + intros Hd. apply Hlast in Hd. by rewrite (proj2 (in_chars_dquote _)) in Hd.
    + done.
    + apply destination_of_strip.
    + apply destination_of_unique.
  - intros col. apply strip_by_split.
Qed.

(** A header, a quoted destination, a short row and a blank destination. *)
Example read_batch_rows :
  read_folders_to_sync
    [ [lit "source"; lit "target"];
      [lit " C:\data\in "; lit " " ++ [dquote] ++ lit "remote:out" ++ [dquote]];
      [lit "C:\only"];
      [lit "C:\data"; lit "   "] ]
  = inr [(lit "C:/data/in", lit "remote:out")].
Proof. by vm_compute. Qed.

Lemma dquote_not_whitespace (s : str) :
  Forall (fun c => c = dquote) s ->
  Forall (fun c => is_whitespace c = false) s.
Proof. intros H. eapply Forall_impl; [exact H|]. by intros c ->. Qed.

(** C9. A row whose destination column is not empty and holds double quotes
    only is kept: the column is not blank, so the row passes the check, and
    stripping the quotes afterwards leaves the empty destination. *)
Theorem quote_only_destination_kept (acc : list (str * str)) (row : list str) :
  (2 <= length row)%nat ->
  strip (column row 0) <> [] ->
  column row 1 <> [] ->
  Forall (fun c => c = dquote) (column row 1) ->
  read_row acc row =
    acc ++ [(replace backslash (lit "/") (strip (column row 0)), [])].
Proof.
  intros Hlen H0 Hne Hq.
  assert (strip (column row 1) = column row 1) as Hstrip.
  { unfold strip, strip_by.
    rewrite lstrip_by_none by by apply dquote_not_whitespace.
    by rewrite rstrip_by_none by by apply dquote_not_whitespace. }
  rewrite read_row_kept by (by rewrite ?Hstrip).
  rewrite Hstrip. unfold strip_chars, strip_by.
  rewrite lstrip_by_all; [done|].
  eapply Forall_impl; [exact Hq|]. intros c. apply in_chars_dquote.
Qed.

Lemma quote_only_destination_kept_witness :
  read_row [] [lit "C:\data"; [dquote; dquote]] = [] ++ [(lit "C:/data", [])].
Proof.
  apply (quote_only_destination_kept [] [lit "C:\data"; [dquote; dquote]]).
  - simpl. lia.
  - vm_compute. discriminate.
  - vm_compute. discriminate.
  - vm_compute. repeat constructor.
Defined.

(* ===================================================================== *)
(** * The file check *)
(* ===================================================================== *)

(** ** [datetime] comparison *)

Lemma fields_eqb_refl (a : datetime) : fields_eqb a a = true.
Proof. unfold fields_eqb. by rewrite !Z.eqb_refl. Qed.

Lemma ne_refl (a : datetime) : ne a a = false.
Proof.
  unfold ne. destruct (tzinfo a) as [o|].
  - by rewrite Z.eqb_refl, fields_eqb_refl.
  - by rewrite fields_eqb_refl.
Qed.

Lemma same_second_truncated (a b : datetime) :
  same_second a b -> replace_microsecond a 0 = replace_microsecond b 0.
Proof.
  destruct a, b. unfold same_second, replace_microsecond. simpl.
  intros (-> & -> & -> & -> & -> & -> & ->). done.
Qed.

(** ** The comparison loop *)

Section FileListCheckLemmas.
Context (fromisoformat : str -> option datetime).
Context (source_dict target_dict : gmap str entry).

Let compare := compare_path fromisoformat source_dict target_dict.

Lemma differences_over_flat_map (paths : list str) :
  differences_over fromisoformat source_dict target_dict paths
    = flat_map compare paths.
Proof.
  unfold differences_over.
  enough (forall acc,
            foldl (fun differences path => differences ++ compare path)
              acc paths = acc ++ flat_map compare paths) as H by apply H.
  induction paths as [|p paths IH]; intros acc; simpl.
  - by rewrite app_nil_r.
  - by rewrite IH, app_assoc.
Qed.

(** One path gives no record or one record, which carries that path. *)
Lemma compare_path_cases (p : str) :
  compare p = [] \/ exists d, compare p = [d] /\ diff_path d = p.
Proof.
  unfold compare, compare_path.
  destruct (source_dict !! p) as [si|], (target_dict !! p) as [ti|];
    [|right; by eexists..|by left].
  destruct (_ || _); [right; by eexists|by left].
Qed.

Lemma compare_path_elem_of (p : str) (d : difference) :
  d ∈ compare p -> diff_path d = p.
Proof.
  destruct (compare_path_cases p) as [->|(d' & -> & Hd')].
  - by intros ?%elem_of_nil.
  - by intros ->%list_elem_of_singleton.
Qed.

Lemma compare_path_absent (p : str) :
  source_dict !! p = None -> target_dict !! p = None -> compare p = [].
Proof. unfold compare, compare_path. by intros -> ->. Qed.

Lemma records_for_app (p : str) (l1 l2 : list difference) :
  records_for p (l1 ++ l2) = (records_for p l1 + records_for p l2)%nat.
Proof. unfold records_for. by rewrite filter_app, length_app. Qed.

Lemma records_for_compare (p q : str) :
  records_for p (compare q) = if decide (q = p) then length (compare q) else 0%nat.
Proof.
  unfold records_for.
  destruct (compare_path_cases q) as [->|(d & -> & Hd)].
  { by destruct (decide _). }
  destruct (decide (q = p)) as [<-|Hne].
  - by rewrite filter_cons_True.
  - rewrite filter_cons_False; [done|]. by rewrite Hd.
Qed.

Lemma records_for_flat_map (p : str) (paths : list str) :
  NoDup paths ->
  records_for p (flat_map compare paths)
    = if decide (p ∈ paths) then length (compare p) else 0%nat.
Proof.
  induction 1 as [|q paths Hq Hnd IH]; cbn [flat_map].
  { rewrite decide_False; [done|]. by intros ?%elem_of_nil. }
  rewrite records_for_app, records_for_compare, IH.
  destruct (decide (q = p)) as [->|Hne];
    destruct (decide (p ∈ paths)) as [Hin|Hnin];
    destruct (decide (p ∈ _ :: paths)) as [Hin'|Hnin']; try done; try lia.
  - destruct Hnin'. by left.
  - destruct Hnin'. by right.
  - apply elem_of_cons in Hin' as [->|?]; done.
Qed.

(** The records come out in the order of the paths looped over. *)
Lemma flat_map_compare_sorted (R : relation str) (paths : list str) :
  StronglySorted R paths ->
  StronglySorted R (map diff_path (flat_map compare paths)) /\
  (forall q, q ∈ map diff_path (flat_map compare paths) -> q ∈ paths).
Proof.
  induction 1 as [|p paths Hs [IH1 IH2] Hp]; simpl.
  { split; [constructor|done]. }
  rewrite map_app. rewrite Forall_forall in Hp.
  destruct (compare_path_cases p) as [->|(d & -> & Hd)]; simpl.
  - split; [done|]. intros q Hq. right. by apply IH2.
  - rewrite Hd. split.
    + constructor; [done|]. rewrite Forall_forall. intros q Hq.
      by apply Hp, IH2.
    + intros q [->|Hq]%elem_of_cons; [by left|right; by apply IH2].
Qed.
End FileListCheckLemmas.

Section FileListCheckResult.
Context (fromisoformat : str -> option datetime).
Context (source_structure target_structure : list entry).

Let source_dict := path_dict source_structure.
Let target_dict := path_dict target_structure.
Let compare := compare_path fromisoformat source_dict target_dict.
Let result :=
  complete_file_list_check fromisoformat source_structure target_structure.

Lemma result_flat_map :
  result = flat_map compare (sorted (elements (dom source_dict ∪ dom target_dict))).
Proof. apply differences_over_flat_map. Qed.

Lemma all_paths_ascending :
  StronglySorted str_lt (sorted (elements (dom source_dict ∪ dom target_dict))).
Proof. apply sorted_strictly_ascending, NoDup_elements. Qed.

Lemma all_paths_elem_of (p : str) :
  p ∈ sorted (elements (dom source_dict ∪ dom target_dict))
  <-> is_Some (source_dict !! p) \/ is_Some (target_dict !! p).
Proof.
  by rewrite sorted_elem_of, elem_of_elements, elem_of_union, !elem_of_dom.
Qed.

(** The records of a path are those its turn of the loop appends. *)
Lemma records_for_result (p : str) :
  records_for p result = length (compare p).
Proof.
  rewrite result_flat_map. unfold compare.
  rewrite records_for_flat_map
    by apply str_lt_sorted_NoDup, all_paths_ascending.
  destruct (decide _) as [|Hnin]; [done|].
  rewrite all_paths_elem_of in Hnin.
  rewrite compare_path_absent; [done|..].
  - destruct (source_dict !! p) eqn:E; [|done]. destruct Hnin. by left.
  - destruct (target_dict !! p) eqn:E; [|done]. destruct Hnin. by right.
Qed.

Lemma result_elem_of (d : difference) :
  d ∈ result <-> d ∈ compare (diff_path d).
Proof.
  rewrite result_flat_map, list_elem_of_In, in_flat_map. split.
  - intros (q & _ & Hd). apply list_elem_of_In in Hd.
    by rewrite (compare_path_elem_of _ _ _ _ _ Hd).
  - intros Hd. exists (diff_path d).
    split; [|by apply list_elem_of_In].
    apply list_elem_of_In, all_paths_elem_of.
    destruct (source_dict !! diff_path d) eqn:Es; [left; by eexists|].
    destruct (target_dict !! diff_path d) eqn:Et; [right; by eexists|].
    unfold compare in Hd. rewrite compare_path_absent in Hd by done.
    by apply elem_of_nil in Hd.
Qed.

Lemma result_paths_ascending :
  StronglySorted str_lt (map diff_path result).
Proof.
  rewrite result_flat_map.
  apply flat_map_compare_sorted, all_paths_ascending.
Qed.

(** A path of both listings: its loop turn in terms of the two entries. *)
Lemma compare_path_both (p : str) (si ti : entry) :
  source_dict !! p = Some si -> target_dict !! p = Some ti ->
  compare p =
    if negb (size si =? size ti)%Z
       || modtime_differs fromisoformat (mod_time si) (mod_time ti)
    then [ {| type := DIFFERENT; diff_path := p;
              source_size := Some (size si);
              source_modtime := Some (mod_time si);
              target_size := Some (size ti);
              target_modtime := Some (mod_time ti);
              size_different := Some (negb (size si =? size ti)%Z);
              modtime_different :=
                Some (modtime_differs fromisoformat (mod_time si)
                        (mod_time ti)) |} ]
    else [].
Proof. unfold compare, compare_path. by intros -> ->. Qed.
End FileListCheckResult.

(** The dictionaries do not keep the hashes apart from the entries. *)
Lemma path_dict_with_crc (h : entry -> str) (structure : list entry) :
  path_dict (map (with_crc h) structure) = with_crc h <$> path_dict structure.
Proof.
  unfold path_dict.
  enough (forall m : gmap str entry,
            foldl (fun d item => <[path item := item]> d) (with_crc h <$> m)
              (map (with_crc h) structure)
            = with_crc h <$>
                foldl (fun d item => <[path item := item]> d) m structure) as H.
  { rewrite <- H. by rewrite fmap_empty. }
  induction structure as [|e l IH]; intros m; simpl; [done|].
  rewrite <- IH. by rewrite fmap_insert.
Qed.

Lemma compare_path_with_crc (fromisoformat : str -> option datetime)
    (h1 h2 : entry -> str) (sd td : gmap str entry) (p : str) :
  compare_path fromisoformat (with_crc h1 <$> sd) (with_crc h2 <$> td) p
    = compare_path fromisoformat sd td p.
Proof.
  unfold compare_path. rewrite !lookup_fmap.
  by destruct (sd !! p), (td !! p).
Qed.

Lemma complete_file_list_check_with_crc
    (fromisoformat : str -> option datetime) (h1 h2 : entry -> str)
    (source_structure target_structure : list entry) :
  complete_file_list_check fromisoformat
    (map (with_crc h1) source_structure) (map (with_crc h2) target_structure)
  = complete_file_list_check fromisoformat source_structure target_structure.
Proof.
  unfold complete_file_list_check.
  rewrite !path_dict_with_crc, !dom_fmap_L, !differences_over_flat_map.
  apply flat_map_ext. intros p. apply compare_path_with_crc.
Qed.

(** C3, as stated, fails: a file that is the same in both listings gets no
    record at all. *)
Lemma equal_path_has_no_record :
  let e := mk_entry (lit "a.txt") (lit "2024-01-01T00:00:00Z") 10 (lit "") false in
  complete_file_list_check IsoFormat.fromisoformat [e] [e] = [] /\
  ~ every_path_has_one_record IsoFormat.fromisoformat [e] [e].
Proof.
  intros e.
  assert (complete_file_list_check IsoFormat.fromisoformat [e] [e] = [])
    as Hnil by (by vm_compute).
  split; [done|]. intros H.
  assert (lit "a.txt" ∈ dom (path_dict [e]) ∪ dom (path_dict [e])) as Hin.
  { apply elem_of_union_l, elem_of_dom. vm_compute. by eexists. }
  specialize (H _ Hin). rewrite Hnil in H. done.
Qed.

(** C3, amended. A path of either listing has at most one record: one when
    it is missing on a side or differs in size or time, and none when both
    entries have the same size and no differing time. *)
Theorem each_path_at_most_one_record
    (fromisoformat : str -> option datetime)
    (source_structure target_structure : list entry) (p : str) :
  p ∈ dom (path_dict source_structure) ∪ dom (path_dict target_structure) ->
  let result :=
    complete_file_list_check fromisoformat source_structure target_structure in
  (records_for p result <= 1)%nat /\
  (records_for p result = 0%nat <->
   exists si ti,
     path_dict source_structure !! p = Some si /\
     path_dict target_structure !! p = Some ti /\
     size si = size ti /\
     modtime_differs fromisoformat (mod_time si) (mod_time ti) = false).
Proof.
  intros Hin. simpl. rewrite records_for_result.
  rewrite elem_of_union, !elem_of_dom in Hin.
  destruct (path_dict source_structure !! p) as [si|] eqn:Es;
    destruct (path_dict target_structure !! p) as [ti|] eqn:Et.
  - rewrite (compare_path_both _ _ _ p si ti Es Et).
    destruct (Z.eqb_spec (size si) (size ti)) as [Hsz|Hsz]; simpl.
    + destruct (modtime_differs _ _ _) eqn:Hm; simpl.
      * split; [lia|]. split; [done|].
        intros (si' & ti' & [= <-] & [= <-] & _ & Hm'). congruence.
      * split; [lia|]. split; [|done]. intros _. by exists si, ti.
    + split; [lia|]. split; [done|].
      intros (si' & ti' & [= <-] & [= <-] & Hsz' & _). done.
  - unfold compare_path. rewrite Es, Et. simpl. split; [lia|].
    split; [done|]. by intros (? & ? & _ & ? & _).
  - unfold compare_path. rewrite Es, Et. simpl. split; [lia|].
    split; [done|]. by intros (? & ? & ? & _).
  - destruct Hin as [[? ?]|[? ?]]; done.
Qed.

Lemma each_path_at_most_one_record_witness :
  let src := [mk_entry (lit "a.txt") (lit "2024-01-01T00:00:00Z") 10 (lit "") false;
              mk_entry (lit "b.txt") (lit "2024-01-01T00:00:00Z") 10 (lit "") false] in
  let tgt := [mk_entry (lit "a.txt") (lit "2024-01-01T00:00:00Z") 10 (lit "") false] in
  (records_for (lit "b.txt")
     (complete_file_list_check IsoFormat.fromisoformat src tgt) <= 1)%nat.
Proof.
  intros src tgt.
  refine (proj1 (each_path_at_most_one_record IsoFormat.fromisoformat
                   src tgt (lit "b.txt") _)).
  apply elem_of_union_l, elem_of_dom. vm_compute. eexists. reflexivity.
Defined.

(** C10. The records come out strictly ascending by path, so no path
    occurs twice, and the list does not depend on the order in which the
    set of paths is iterated: the same listings give the same list. *)
Theorem differences_strictly_ascending
    (fromisoformat : str -> option datetime)
    (source_structure target_structure : list entry) :
  let result :=
    complete_file_list_check fromisoformat source_structure target_structure in
  StronglySorted str_lt (map diff_path result) /\
  NoDup (map diff_path result) /\
  (forall p, records_for p result <= 1)%nat /\
  (forall order,
      order ≡ₚ elements (dom (path_dict source_structure)
                          ∪ dom (path_dict target_structure)) ->
      differences_in_order fromisoformat source_structure target_structure order
        = result).
Proof.
  simpl. split; [|split; [|split]].
  - apply result_paths_ascending.
  - apply str_lt_sorted_NoDup, result_paths_ascending.
  - intros p. rewrite records_for_result.
    destruct (compare_path_cases fromisoformat (path_dict source_structure)
                (path_dict target_structure) p) as [->|(d & -> & _)];
      simpl; lia.
  - intros order Hp. unfold differences_in_order, complete_file_list_check.
    f_equal. symmetry.
    apply sorted_order_independent; [apply NoDup_elements|done].
Qed.

Lemma modtime_differs_parsed (fromisoformat : str -> option datetime)
    (s t : str) (ds dt : datetime) :
  fromisoformat (replace upper_Z (lit "+00:00") s) = Some ds ->
  fromisoformat (replace upper_Z (lit "+00:00") t) = Some dt ->
  modtime_differs fromisoformat s t
    = ne (replace_microsecond ds 0) (replace_microsecond dt 0).
Proof. unfold modtime_differs. by intros -> ->. Qed.

Lemma modtime_differs_unparsed (fromisoformat : str -> option datetime)
    (s t : str) :
  fromisoformat (replace upper_Z (lit "+00:00") s) = None \/
  fromisoformat (replace upper_Z (lit "+00:00") t) = None ->
  modtime_differs fromisoformat s t = negb (str_eqb s t).
Proof.
  unfold modtime_differs. intros [->| ->]; [done|].
  by destruct (fromisoformat _).
Qed.

(** C4. For a path of both listings the record's time flag is the outcome
    of the time comparison.  When both timestamps parse, that is the
    comparison of the two values cut to whole seconds, so timestamps that
    differ in their sub-second part only do not differ, and with equal
    sizes the path gets no record; when one of them does not parse, it is
    the comparison of the two strings, and nothing is raised. *)
Theorem modtime_compared_to_the_second
    (fromisoformat : str -> option datetime)
    (source_structure target_structure : list entry)
    (p : str) (si ti : entry) :
  path_dict source_structure !! p = Some si ->
  path_dict target_structure !! p = Some ti ->
  let result :=
    complete_file_list_check fromisoformat source_structure target_structure in
  let source_dt := fromisoformat (replace upper_Z (lit "+00:00") (mod_time si)) in
  let target_dt := fromisoformat (replace upper_Z (lit "+00:00") (mod_time ti)) in
  let differs := modtime_differs fromisoformat (mod_time si) (mod_time ti) in
  (forall d, d ∈ result -> diff_path d = p ->
             type d = DIFFERENT /\ modtime_different d = Some differs) /\
  (forall ds dt,
      source_dt = Some ds -> target_dt = Some dt ->
      differs = ne (replace_microsecond ds 0) (replace_microsecond dt 0) /\
      (same_second ds dt ->
       differs = false /\
       (size si = size ti -> records_for p result = 0%nat))) /\
  (source_dt = None \/ target_dt = None ->
   differs = negb (str_eqb (mod_time si) (mod_time ti)) /\
   (differs = false <-> mod_time si = mod_time ti)).
Proof.
  intros Es Et. simpl. split; [|split].
  - intros d Hd <-. apply result_elem_of in Hd.
    rewrite (compare_path_both _ _ _ _ si ti Es Et) in Hd.
    destruct (_ || _); [|by apply elem_of_nil in Hd].
    by apply list_elem_of_singleton in Hd as ->.
  - intros ds dt Hs Ht.
    rewrite (modtime_differs_parsed _ _ _ ds dt Hs Ht).
    split; [done|]. intros Hsame.
    rewrite (same_second_truncated _ _ Hsame), ne_refl.
    split; [done|]. intros Hsz.
    rewrite records_for_result, (compare_path_both _ _ _ _ si ti Es Et).
    rewrite (modtime_differs_parsed _ _ _ ds dt Hs Ht).
    rewrite (same_second_truncated _ _ Hsame), ne_refl, Hsz, Z.eqb_refl.
    done.
  - intros Hnone. rewrite (modtime_differs_unparsed _ _ _ Hnone).
    split; [done|]. rewrite negb_false_iff. apply str_eqb_eq.
Qed.

Lemma modtime_compared_to_the_second_witness :
  let si := mk_entry (lit "a.txt") (lit "2024-01-01T10:00:00.100000Z") 10
              (lit "") false in
  let ti := mk_entry (lit "a.txt") (lit "2024-01-01T10:00:00.600000Z") 10
              (lit "") false in
  modtime_differs IsoFormat.fromisoformat (mod_time si) (mod_time ti) = false /\
  records_for (lit "a.txt")
    (complete_file_list_check IsoFormat.fromisoformat [si] [ti]) = 0%nat.
Proof.
  intros si ti.
  destruct (modtime_compared_to_the_second IsoFormat.fromisoformat
              [si] [ti] (lit "a.txt") si ti eq_refl eq_refl) as (_ & H & _).
  destruct (H _ _ eq_refl eq_refl) as [_ Hsame].
  destruct Hsame as [Hd Hr]; [by repeat split|].
  split; [exact Hd|]. apply Hr. reflexivity.
Defined.

(** C6. A path of both listings whose entries have the same size and the
    same time to the second gets no record, whatever the two hashes are:
    the list of records is the same for any other hashes in the listings. *)
Theorem equal_size_and_time_ignores_hash
    (fromisoformat : str -> option datetime)
    (source_structure target_structure : list entry)
    (p : str) (si ti : entry) (ds dt : datetime) :
  path_dict source_structure !! p = Some si ->
  path_dict target_structure !! p = Some ti ->
  size si = size ti ->
  fromisoformat (replace upper_Z (lit "+00:00") (mod_time si)) = Some ds ->
  fromisoformat (replace upper_Z (lit "+00:00") (mod_time ti)) = Some dt ->
  ne (replace_microsecond ds 0) (replace_microsecond dt 0) = false ->
  let result :=
    complete_file_list_check fromisoformat source_structure target_structure in
  records_for p result = 0%nat /\
  (forall d, d ∈ result -> diff_path d <> p) /\
  (forall h1 h2 : entry -> str,
      complete_file_list_check fromisoformat
        (map (with_crc h1) source_structure)
        (map (with_crc h2) target_structure) = result).
Proof.
  intros Es Et Hsz Hs Ht Hne. simpl.
  assert (compare_path fromisoformat (path_dict source_structure)
            (path_dict target_structure) p = []) as Hnil.
  { rewrite (compare_path_both _ _ _ _ si ti Es Et).
    by rewrite (modtime_differs_parsed _ _ _ ds dt Hs Ht), Hne, Hsz, Z.eqb_refl. }
  split; [|split].
  - by rewrite records_for_result, Hnil.
  - intros d Hd Hp. apply result_elem_of in Hd.
    rewrite Hp, Hnil in Hd. by apply elem_of_nil in Hd.
  - intros h1 h2. apply complete_file_list_check_with_crc.
Qed.

Lemma equal_size_and_time_ignores_hash_witness :
  let si := mk_entry (lit "a.txt") (lit "2024-01-01T10:00:00.100000Z") 10
              (lit "0a1b2c3d") false in
  let ti := mk_entry (lit "a.txt") (lit "2024-01-01T10:00:00.600000Z") 10
              (lit "ffffffff") false in
  records_for (lit "a.txt")
    (complete_file_list_check IsoFormat.fromisoformat [si] [ti]) = 0%nat.
Proof.
  intros si ti.
  refine (proj1 (equal_size_and_time_ignores_hash IsoFormat.fromisoformat
                   [si] [ti] (lit "a.txt") si ti _ _
                   eq_refl eq_refl eq_refl eq_refl eq_refl eq_refl)).
Defined.

(* ===================================================================== *)
(** * More on the file check *)
(* ===================================================================== *)

Lemma path_dict_foldl_lookup (structure : list entry) (m : gmap str entry)
    (p : str) :
  foldl (fun d item => <[path item := item]> d) m structure !! p
  = match last (filter (fun e => path e = p) structure) with
    | Some e => Some e
    | None => m !! p
    end.
Proof.
  revert m. induction structure as [|e l IH]; intros m; simpl; [done|].
  rewrite IH. destruct (decide (path e = p)) as [He|He].
  - rewrite filter_cons_True by done. rewrite last_cons.
    destruct (last _); [done|]. by rewrite He, lookup_insert_eq.
  - rewrite filter_cons_False by done.
    destruct (last _); [done|]. by rewrite lookup_insert_ne.
Qed.

(** X1. The dictionary of a listing maps a path to the last entry of the
    listing that has it, and holds exactly the paths of the listing. *)
Theorem path_dict_last_entry_wins (structure : list entry) :
  (forall p,
      path_dict structure !! p
      = last (filter (fun e => path e = p) structure)) /\
  (forall p,
      p ∈ dom (path_dict structure) <-> exists e, e ∈ structure /\ path e = p) /\
  (forall earlier e later,
      structure = earlier ++ e :: later ->
      Forall (fun e' => path e' <> path e) later ->
      path_dict structure !! path e = Some e).
Proof.
  assert (forall p, path_dict structure !! p
                    = last (filter (fun e => path e = p) structure)) as Hlook.
  { intros p. unfold path_dict. rewrite path_dict_foldl_lookup.
    by destruct (last _). }
  split; [done|split].
  - intros p. rewrite elem_of_dom, Hlook, last_is_Some. split.
    + intros Hne.
      destruct (filter (fun e => path e = p) structure) as [|e l] eqn:Hf;
        [done|].
      assert (e ∈ filter (fun e => path e = p) structure) as He
        by (rewrite Hf; by left).
      apply list_elem_of_filter in He as [? ?]. by exists e.
    + intros (e & He & Hp) Hnil.
      assert (e ∈ filter (fun e => path e = p) structure) as He'
        by by apply list_elem_of_filter.
      rewrite Hnil in He'. by apply elem_of_nil in He'.
  - intros earlier e later -> Hlater. rewrite Hlook.
    rewrite filter_app, filter_cons_True by done.
    assert (filter (fun e' => path e' = path e) later = []) as ->.
    { clear Hlook. induction Hlater as [|x l Hx _ IH]; [done|].
      by rewrite filter_cons_False. }
    apply last_snoc.
Qed.

Lemma modtime_differs_same (fromisoformat : str -> option datetime) (s : str) :
  modtime_differs fromisoformat s s = false.
Proof.
  unfold modtime_differs. destruct (fromisoformat _) as [d|].
  - apply ne_refl.
  - apply negb_false_iff, str_eqb_eq. done.
Qed.

Lemma flat_map_nil {A B} (f : A -> list B) (l : list A) :
  flat_map f l = [] <-> forall x, x ∈ l -> f x = [].
Proof.
  induction l as [|a l IH]; simpl.
  { split; [by intros _ x ?%elem_of_nil|done]. }
  split.
  - intros [Ha Hl]%app_eq_nil x [->|Hx]%elem_of_cons; [done|].
    by apply IH.
  - intros H. rewrite (H a) by by left. simpl.
    apply IH. intros x Hx. apply H. by right.
Qed.

(** The record list is empty exactly when no path gives a record. *)
Lemma result_nil_iff (fromisoformat : str -> option datetime)
    (source_structure target_structure : list entry) :
  complete_file_list_check fromisoformat source_structure target_structure = []
  <-> forall p,
        compare_path fromisoformat (path_dict source_structure)
          (path_dict target_structure) p = [].
Proof.
  rewrite result_flat_map, flat_map_nil. split; [|by auto].
  intros H p.
  destruct (path_dict source_structure !! p) as [si|] eqn:Es;
    [apply H, all_paths_elem_of; left; by eexists|].
  destruct (path_dict target_structure !! p) as [ti|] eqn:Et;
    [apply H, all_paths_elem_of; right; by eexists|].
  by apply compare_path_absent.
Qed.

(** X2. A listing compared with itself gives no record. *)
Theorem same_listing_no_difference
    (fromisoformat : str -> option datetime) (structure : list entry) :
  complete_file_list_check fromisoformat structure structure = [].
Proof.
  apply result_nil_iff. intros p. unfold compare_path.
  destruct (path_dict structure !! p) as [e|]; [|done].
  by rewrite Z.eqb_refl, modtime_differs_same.
Qed.

(** X3. The report is empty exactly when both listings have the same paths
    and, path by path, the same size and no differing time. *)
Theorem no_difference_iff
    (fromisoformat : str -> option datetime)
    (source_structure target_structure : list entry) :
  complete_file_list_check fromisoformat source_structure target_structure = []
  <->
  dom (path_dict source_structure) = dom (path_dict target_structure) /\
  (forall p si ti,
      path_dict source_structure !! p = Some si ->
      path_dict target_structure !! p = Some ti ->
      size si = size ti /\
      modtime_differs fromisoformat (mod_time si) (mod_time ti) = false).
Proof.
  rewrite result_nil_iff. split.
  - intros H. split.
    + apply set_eq. intros p. rewrite !elem_of_dom.
      specialize (H p). unfold compare_path in H.
      destruct (path_dict source_structure !! p),
        (path_dict target_structure !! p); try done;
        first [split; intros _; by eexists | split; by intros [? ?]].
    + intros p si ti Es Et. specialize (H p).
      rewrite (compare_path_both _ _ _ _ si ti Es Et) in H.
      destruct (Z.eqb_spec (size si) (size ti)); [|done].
      by destruct (modtime_differs _ _ _).
  - intros [Hdom Hboth] p. unfold compare_path.
    assert (is_Some (path_dict source_structure !! p)
            <-> is_Some (path_dict target_structure !! p)) as Hiff
      by (by rewrite <- !elem_of_dom, Hdom).
    destruct (path_dict source_structure !! p) as [si|] eqn:Es,
      (path_dict target_structure !! p) as [ti|] eqn:Et.
    + destruct (Hboth p si ti Es Et) as [-> ->]. by rewrite Z.eqb_refl.
    + destruct (proj1 Hiff) as [? ?]; [by eexists|done].
    + destruct (proj2 Hiff) as [? ?]; [by eexists|done].
    + done.
Qed.

(** X4. What a record says holds of the two dictionaries: a record of a
    missing path belongs to a path of one listing only and carries that
    entry's size and time; a [DIFFERENT] record belongs to a path of both
    listings whose size or time differs, and its two flags are the outcomes
    of the two comparisons. *)
Theorem difference_record_invariant
    (fromisoformat : str -> option datetime)
    (source_structure target_structure : list entry) (d : difference) :
  d ∈ complete_file_list_check fromisoformat source_structure target_structure ->
  let source_item := path_dict source_structure !! diff_path d in
  let target_item := path_dict target_structure !! diff_path d in
  match type d with
  | MISSING_IN_TARGET =>
      exists si,
        source_item = Some si /\ target_item = None /\
        source_size d = Some (size si) /\
        source_modtime d = Some (mod_time si) /\
        target_size d = None /\ target_modtime d = None /\
        size_different d = None /\ modtime_different d = None
  | MISSING_IN_SOURCE =>
      exists ti,
        source_item = None /\ target_item = Some ti /\
        source_size d = None /\ source_modtime d = None /\
        target_size d = Some (size ti) /\
        target_modtime d = Some (mod_time ti) /\
        size_different d = None /\ modtime_different d = None
  | DIFFERENT =>
      exists si ti,
        source_item = Some si /\ target_item = Some ti /\
        source_size d = Some (size si) /\
        source_modtime d = Some (mod_time si) /\
        target_size d = Some (size ti) /\
        target_modtime d = Some (mod_time ti) /\
        size_different d = Some (negb (size si =? size ti)%Z) /\
        modtime_different d
          = Some (modtime_differs fromisoformat (mod_time si) (mod_time ti)) /\
        (size si <> size ti \/
         modtime_differs fromisoformat (mod_time si) (mod_time ti) = true)
  end.
Proof.
  intros Hd. apply result_elem_of in Hd. simpl.
  unfold compare_path in Hd.
  destruct (path_dict source_structure !! diff_path d) as [si|] eqn:Es,
    (path_dict target_structure !! diff_path d) as [ti|] eqn:Et.
  - destruct (size si =? size ti)%Z eqn:Hsz; simpl in Hd.
    + destruct (modtime_differs _ _ _) eqn:Hm;
        [|by apply elem_of_nil in Hd].
      apply list_elem_of_singleton in Hd. rewrite Hd. simpl.
      exists si, ti. rewrite Hm, Hsz.
      do 8 (split; [reflexivity|]). by right.
    + apply list_elem_of_singleton in Hd. rewrite Hd. simpl.
      exists si, ti. rewrite Hsz.
      do 8 (split; [reflexivity|]). left. by apply Z.eqb_neq.
  - apply list_elem_of_singleton in Hd. rewrite Hd. simpl.
    exists si. repeat split.
  - apply list_elem_of_singleton in Hd. rewrite Hd. simpl.
    exists ti. repeat split.
  - by apply elem_of_nil in Hd.
Qed.

Lemma difference_record_invariant_witness :
  let si := mk_entry (lit "a.txt") (lit "2024-01-01T10:00:00Z") 10 (lit "") false in
  let ti := mk_entry (lit "a.txt") (lit "2024-01-01T10:00:00Z") 11 (lit "") false in
  exists si' ti',
    path_dict [si] !! lit "a.txt" = Some si' /\
    path_dict [ti] !! lit "a.txt" = Some ti' /\
    (size si' <> size ti' \/
     modtime_differs IsoFormat.fromisoformat (mod_time si') (mod_time ti')
       = true).
Proof.
  intros si ti.
  assert ({| type := DIFFERENT; diff_path := lit "a.txt";
             source_size := Some 10%Z;
             source_modtime := Some (lit "2024-01-01T10:00:00Z");
             target_size := Some 11%Z;
             target_modtime := Some (lit "2024-01-01T10:00:00Z");
             size_different := Some true; modtime_different := Some false |}
          ∈ complete_file_list_check IsoFormat.fromisoformat [si] [ti]) as Hin.
  { vm_compute. by left. }
  pose proof (difference_record_invariant _ _ _ _ Hin) as H.
  cbv zeta in H. cbn [type diff_path] in H.
  destruct H as (si' & ti' & Hs & Ht & _ & _ & _ & _ & _ & _ & Hor).
  exists si', ti'. split; [exact Hs|split; [exact Ht|exact Hor]].
Defined.

Lemma fields_eqb_sym (a b : datetime) : fields_eqb a b = fields_eqb b a.
Proof.
  unfold fields_eqb.
  by rewrite (Z.eqb_sym (year a)), (Z.eqb_sym (month a)),
    (Z.eqb_sym (day a)), (Z.eqb_sym (hour a)), (Z.eqb_sym (minute a)),
    (Z.eqb_sym (second a)), (Z.eqb_sym (microsecond a)).
Qed.

Lemma ne_sym (a b : datetime) : ne a b = ne b a.
Proof.
  unfold ne. destruct (tzinfo a) as [oa|], (tzinfo b) as [ob|]; try done.
  - rewrite (Z.eqb_sym oa), fields_eqb_sym.
    by rewrite (Z.eqb_sym (utc_microseconds a oa)).
  - by rewrite fields_eqb_sym.
Qed.

Lemma str_eqb_sym (a b : str) : str_eqb a b = str_eqb b a.
Proof. apply eq_true_iff_eq. rewrite !str_eqb_eq. split; by intros ->. Qed.

Lemma modtime_differs_sym (fromisoformat : str -> option datetime)
    (s t : str) :
  modtime_differs fromisoformat s t = modtime_differs fromisoformat t s.
Proof.
  unfold modtime_differs.
  destruct (fromisoformat (replace upper_Z _ s)),
    (fromisoformat (replace upper_Z _ t));
    first [apply ne_sym | by rewrite str_eqb_sym].
Qed.

Lemma compare_path_swap (fromisoformat : str -> option datetime)
    (sd td : gmap str entry) (p : str) :
  compare_path fromisoformat td sd p
  = map swap_difference (compare_path fromisoformat sd td p).
Proof.
  unfold compare_path. destruct (sd !! p) as [si|], (td !! p) as [ti|];
    try done.
  rewrite (Z.eqb_sym (size ti)), (modtime_differs_sym _ (mod_time ti)).
  by destruct (_ || _).
Qed.

Lemma map_flat_map {A B C} (g : B -> C) (f : A -> list B) (l : list A) :
  map g (flat_map f l) = flat_map (fun x => map g (f x)) l.
Proof.
  induction l as [|a l IH]; simpl; [done|]. by rewrite map_app, IH.
Qed.

(** X5. Exchanging the two listings exchanges the roles in every record:
    the same paths are reported, a path missing in the target becomes one
    missing in the source, and a [DIFFERENT] record keeps its flags. *)
Theorem exchange_listings
    (fromisoformat : str -> option datetime)
    (source_structure target_structure : list entry) :
  complete_file_list_check fromisoformat target_structure source_structure
  = map swap_difference
      (complete_file_list_check fromisoformat source_structure
         target_structure).
Proof.
  rewrite !result_flat_map, map_flat_map.
  rewrite (union_comm_L (dom (path_dict target_structure))).
  apply flat_map_ext. intros p. apply compare_path_swap.
Qed.

Lemma flat_map_singletons {A B} (f : A -> list B) (g : B -> A) (l : list A) :
  (forall x, x ∈ l -> exists y, f x = [y] /\ g y = x) ->
  map g (flat_map f l) = l.
Proof.
  induction l as [|a l IH]; intros H; simpl; [done|].
  destruct (H a) as (y & -> & <-); [by left|]. simpl. f_equal.
  apply IH. intros x Hx. apply H. by right.
Qed.

(** X6. Against an empty target every path of the source gets one
    [MISSING_IN_TARGET] record, in ascending order of path; against an
    empty source every path of the target gets one [MISSING_IN_SOURCE]
    record. *)
Theorem one_sided_listing
    (fromisoformat : str -> option datetime) (structure : list entry) :
  (map diff_path (complete_file_list_check fromisoformat structure [])
     = sorted (elements (dom (path_dict structure))) /\
   Forall (fun d => type d = MISSING_IN_TARGET)
     (complete_file_list_check fromisoformat structure [])) /\
  (map diff_path (complete_file_list_check fromisoformat [] structure)
     = sorted (elements (dom (path_dict structure))) /\
   Forall (fun d => type d = MISSING_IN_SOURCE)
     (complete_file_list_check fromisoformat [] structure)).
Proof.
  assert (path_dict [] = ∅) as Hnil by done.
  split; split.
  - rewrite result_flat_map, Hnil, dom_empty_L, union_empty_r_L.
    apply flat_map_singletons. intros p Hp.
    rewrite sorted_elem_of, elem_of_elements, elem_of_dom in Hp.
    destruct Hp as [e He]. unfold compare_path.
    rewrite He, lookup_empty. by eexists.
  - apply Forall_forall. intros d Hd. apply result_elem_of in Hd.
    unfold compare_path in Hd. rewrite Hnil, lookup_empty in Hd.
    destruct (path_dict structure !! diff_path d);
      [|by apply elem_of_nil in Hd].
    by apply list_elem_of_singleton in Hd as ->.
  - rewrite result_flat_map, Hnil, dom_empty_L, union_empty_l_L.
    apply flat_map_singletons. intros p Hp.
    rewrite sorted_elem_of, elem_of_elements, elem_of_dom in Hp.
    destruct Hp as [e He]. unfold compare_path.
    rewrite He, lookup_empty. by eexists.
  - apply Forall_forall. intros d Hd. apply result_elem_of in Hd.
    unfold compare_path in Hd. rewrite Hnil, lookup_empty in Hd.
    destruct (path_dict structure !! diff_path d);
      [|by apply elem_of_nil in Hd].
    by apply list_elem_of_singleton in Hd as ->.
Qed.

(* ===================================================================== *)
(** * More on the directory check *)
(* ===================================================================== *)

Lemma rstrip_by_keep (p : N -> bool) (s : str) (c : N) :
  last s = Some c -> p c = false -> rstrip_by p s = s.
Proof.
  intros [s' ->]%last_Some Hc. unfold rstrip_by.
  rewrite reverse_app, reverse_singleton. simpl. rewrite Hc.
  change (c :: reverse s') with ([c] ++ reverse s').
  by rewrite reverse_app, reverse_involutive.
Qed.

Lemma in_chars_slash (c : N) : in_chars (lit "/") c = true <-> c = slash.
Proof.
  change (lit "/") with [slash].
  unfold in_chars, existsb. rewrite orb_false_r, N.eqb_eq. split; auto.
Qed.

(** X7. For a relative path that does not end with a slash the purge target
    is the destination root, a slash and the relative path, unchanged. *)
Theorem purge_target_plain (root_dst rel_path : str) (c : N) :
  last rel_path = Some c -> c <> slash ->
  full_dst_path root_dst rel_path = root_dst ++ [slash] ++ rel_path.
Proof.
  intros Hlast Hc. unfold full_dst_path, rstrip_chars.
  change (lit "/") with [slash].
  apply (rstrip_by_keep _ _ c).
  - rewrite !last_app, Hlast. done.
  - destruct (in_chars [slash] c) eqn:E; [|done].
    by apply in_chars_slash in E.
Qed.

Lemma purge_target_plain_witness :
  full_dst_path (lit "remote:backup") (lit "photos/2024")
  = lit "remote:backup" ++ [slash] ++ lit "photos/2024".
Proof.
  apply (purge_target_plain (lit "remote:backup") (lit "photos/2024") 52%N).
  - reflexivity.
  - discriminate.
Defined.

(** X8. A purge target never ends with a slash, and differs from the
    destination root, a slash and the relative path by trailing slashes
    only; for the empty relative path it is the root without its trailing
    slashes. *)
Theorem purge_target_no_trailing_slash (root_dst rel_path : str) :
  last (full_dst_path root_dst rel_path) <> Some slash /\
  (exists k,
      root_dst ++ [slash] ++ rel_path
      = full_dst_path root_dst rel_path ++ repeat slash k) /\
  full_dst_path root_dst [] = rstrip_chars [slash] root_dst.
Proof.
  split; [|split].
  - intros Hlast. apply last_Some in Hlast as [s' Hs].
    pose proof (rstrip_by_last _ _ _ _ Hs) as H.
    vm_compute in H. discriminate H.
  - unfold full_dst_path, rstrip_chars. change (lit "/") with [slash].
    destruct (rstrip_by_split (in_chars [slash]) (root_dst ++ [slash] ++ rel_path))
      as (w & Hs & Hw).
    exists (length w). rewrite Hs at 1. f_equal.
    clear Hs. induction Hw as [|x w Hx _ IH]; simpl; [done|].
    apply in_chars_slash in Hx. subst x. by f_equal.
  - unfold full_dst_path, rstrip_chars, rstrip_by.
    change (lit "/") with [slash]. rewrite app_nil_r.
    rewrite reverse_app, reverse_singleton. simpl. done.
Qed.

Section PurgeCommands.
Context (lower : str -> str).
Context {World Event : Type}.
Context (rclone_run : list str -> World -> (unit + exn) * World).
Context (event : list str -> Event).

Let recorded := recording event rclone_run.

Lemma for_each_purge_recorded (root_dst : str) (paths : list str)
    (count : nat) (w : World) (h : list Event) (lg : list log_line) :
  exists n w' lg',
    for_each paths (purge_item lower recorded root_dst) count
      {| world := (w, h); log := lg |}
    = (inl n,
       {| world :=
            (w', h ++ map (fun p => event (purge_cmd root_dst p)) paths);
          log := lg' |}).
Proof.
  revert count w h lg. induction paths as [|p paths IH]; intros count w h lg.
  { exists count, w, lg. simpl. by rewrite app_nil_r. }
  destruct (purge_item_step lower recorded root_dst p count
              {| world := (w, h); log := lg |}) as (lv & msg & Hstep & _).
  cbn [for_each]. unfold bind at 1. rewrite Hstep. clear Hstep.
  unfold recorded, recording. simpl.
  destruct (rclone_run _ w) as [r w1]. simpl.
  edestruct IH as (n & w' & lg' & ->).
  exists n, w', lg'. do 3 f_equal.
  rewrite <- app_assoc. done.
Qed.

Lemma complete_list_check_recorded (root_dst : str) (dry_run : bool)
    (S D : gset str) (w : World) (h : list Event) (lg : list log_line) :
  exists w' lg',
    complete_list_check lower recorded root_dst dry_run S D
      {| world := (w, h); log := lg |}
    = (inl tt,
       {| world :=
            (w', h ++ if dry_run then []
                      else map (fun p => event (purge_cmd root_dst p))
                             (sorted_to_delete S D));
          log := lg' |}) /\
    (dry_run = true -> w' = w).
Proof.
  unfold complete_list_check. destruct dry_run.
  { exists w. eexists. unfold logging. simpl. by rewrite app_nil_r. }
  edestruct (for_each_purge_recorded root_dst
               (sorted_key_reverse depth (to_delete S D)) 0 w h)
    as (n & w' & lg' & Hloop).
  unfold purge_loop, bind, logging. simpl. rewrite Hloop. simpl.
  exists w'. eexists. split; [reflexivity|done].
Qed.
End PurgeCommands.

Lemma sorted_to_delete_nil (S D : gset str) :
  D ⊆ S -> sorted_to_delete S D = [].
Proof.
  intros Hsub.
  destruct (sorted_to_delete S D) as [|p l] eqn:E; [done|].
  assert (p ∈ sorted_to_delete S D) as Hp by (rewrite E; by left).
  apply sorted_to_delete_elem_of in Hp as [HD HS]. destruct HS. by apply Hsub.
Qed.

(** With nothing to delete, steps 4 to 6 run no command and log a count of
    zero. *)
Lemma complete_list_check_in_sync
    (lower : str -> str) {World : Type}
    (rclone_run : list str -> World -> (unit + exn) * World)
    (root_dst : str) (S D : gset str) (st : run_state) :
  D ⊆ S ->
  complete_list_check lower rclone_run root_dst false S D st
  = (inl tt,
     {| world := world st;
        log := log st
               ++ [(INFO, lit "Starting folder deletions purging");
                   (INFO, lit "Purged 0 folders successfully.");
                   (INFO, lit "Folder structure sync completed.")] |}).
Proof.
  intros Hsub. unfold complete_list_check.
  assert (sorted_key_reverse depth (to_delete S D) = []) as ->
    by by apply sorted_to_delete_nil.
  unfold purge_loop, bind, logging. simpl.
  by rewrite <- !app_assoc.
Qed.

(** ** Sequencing *)

Lemma bind_inl {St E A B : Type} (m : M (St:=St) (E:=E) A)
    (k : A -> M (St:=St) (E:=E) B) (st st' : St) (a : A) :
  m st = (inl a, st') -> bind m k st = k a st'.
Proof. unfold bind. by intros ->. Qed.

Lemma bind_inr {St E A B : Type} (m : M (St:=St) (E:=E) A)
    (k : A -> M (St:=St) (E:=E) B) (st st' : St) (e : E) :
  m st = (inr e, st') -> bind m k st = (inr e, st').
Proof. unfold bind. by intros ->. Qed.

Lemma bind_logging {World B : Type} (lv : level) (msg : str)
    (k : unit -> M (St:=run_state (World:=World)) (E:=exn) B)
    (st : run_state) :
  bind (logging lv msg) k st
  = k tt {| world := world st; log := log st ++ [(lv, msg)] |}.
Proof. done. Qed.

(** ** The whole of [complete_list_check] *)

Lemma collect_structure_elem_of (listing : list ls_item) (p : str) :
  p ∈ collect_structure listing
  <-> exists item, item ∈ listing /\ Path item = p /\ IsDir item = true.
Proof.
  unfold collect_structure.
  rewrite elem_of_list_to_set, list_elem_of_fmap. split.
  - intros (item & -> & Hin). apply list_elem_of_In, filter_In in Hin.
    destruct Hin as [Hin Hdir]. exists item.
    by rewrite list_elem_of_In.
  - intros (item & Hin & <- & Hdir). exists item. split; [done|].
    apply list_elem_of_In, filter_In. by rewrite <- list_elem_of_In.
Qed.

Section CompleteListCheckRun.
Context (lower : str -> str).
Context {World : Type}.
Context (rclone_lsjson : str -> World -> lsjson_result * World).
Context (lsjson_fallback : list str -> World -> (list ls_item + exn) * World).
Context (write_file : str * list str -> World -> (unit + exn) * World).
Context (rclone_run : list str -> World -> (unit + exn) * World).
Context (log_folder start_datetime : str).

Let lsjson' := unrecorded (Event:=list str) rclone_lsjson.
Let fallback' := unrecorded (Event:=list str) lsjson_fallback.
Let write' := unrecorded (Event:=list str) write_file.
Let run' := recording (fun cmd : list str => cmd) rclone_run.

Lemma collect_structure_of_listed (path : str) (is_source : bool)
    (w w1 : World) (listing : list ls_item)
    (h : list (list str)) (lg : list log_line) :
  listed rclone_lsjson lsjson_fallback path w listing w1 ->
  exists lg',
    collect_structure_of lsjson' fallback' path is_source
      {| world := (w, h); log := lg |}
    = (inl (collect_structure listing), {| world := (w1, h); log := lg' |}).
Proof.
  unfold collect_structure_of, lsjson', fallback', unrecorded. simpl.
  intros [Hl|(w0 & Hl & Hf)]; rewrite Hl; simpl.
  - by eexists.
  - unfold bind, call. simpl. rewrite Hf. simpl. by eexists.
Qed.

Lemma collect_structure_of_fails (path : str) (is_source : bool)
    (w w1 : World) (e : exn) (h : list (list str)) (lg : list log_line) :
  listing_fails rclone_lsjson lsjson_fallback path w e w1 ->
  exists lg',
    collect_structure_of lsjson' fallback' path is_source
      {| world := (w, h); log := lg |}
    = (inr e, {| world := (w1, h); log := lg' |}).
Proof.
  unfold collect_structure_of, lsjson', fallback', unrecorded. simpl.
  intros [Hl|(w0 & Hl & Hf)]; rewrite Hl; simpl.
  - by eexists.
  - unfold bind, call. simpl. rewrite Hf. simpl. by eexists.
Qed.

Lemma save_folder_lists_continues (root_src root_dst : str) (S D : gset str)
    (w : World) (h : list (list str)) (lg : list log_line) :
  exists w' lg',
    save_folder_lists write' log_folder start_datetime root_src root_dst S D
      {| world := (w, h); log := lg |}
    = (inl tt, {| world := (w', h); log := lg' |}).
Proof.
  unfold save_folder_lists, try_except, bind, call, write', unrecorded.
  simpl. destruct (write_file _ w) as [[[]|e] w']; simpl; by eexists _, _.
Qed.

Lemma complete_list_check_run_fails (root_src root_dst : str)
    (dry_run : bool) (w w' : World) (e : exn)
    (h : list (list str)) (lg : list log_line) :
  listing_fails rclone_lsjson lsjson_fallback root_src w e w' \/
  (exists L1 w1,
      listed rclone_lsjson lsjson_fallback root_src w L1 w1 /\
      listing_fails rclone_lsjson lsjson_fallback root_dst w1 e w') ->
  exists lg',
    complete_list_check_run lower lsjson' fallback' write' run'
      log_folder start_datetime root_src root_dst dry_run
      {| world := (w, h); log := lg |}
    = (inr e, {| world := (w', h); log := lg' |}).
Proof.
  intros H. unfold complete_list_check_run.
  rewrite !bind_logging. cbn [world log].
  destruct H as [H1|(L1 & w1 & H1 & H2)].
  - edestruct (collect_structure_of_fails root_src true) as [lg1 Hc1];
      [exact H1|].
    rewrite (bind_inr _ _ _ _ _ Hc1). by eexists.
  - edestruct (collect_structure_of_listed root_src true) as [lg1 Hc1];
      [exact H1|].
    rewrite (bind_inl _ _ _ _ _ Hc1), bind_logging. cbn [world log].
    edestruct (collect_structure_of_fails root_dst false) as [lg2 Hc2];
      [exact H2|].
    rewrite (bind_inr _ _ _ _ _ Hc2). by eexists.
Qed.
End CompleteListCheckRun.

(** X12. When the source cannot be listed, or the source can and the
    destination cannot, [complete_list_check] raises that exception and no
    command is run: nothing is purged on a failed listing. *)
Theorem failed_listing_purges_nothing
    (lower : str -> str) {World : Type}
    (rclone_lsjson : str -> World -> lsjson_result * World)
    (lsjson_fallback : list str -> World -> (list ls_item + exn) * World)
    (write_file : str * list str -> World -> (unit + exn) * World)
    (rclone_run : list str -> World -> (unit + exn) * World)
    (log_folder start_datetime root_src root_dst : str) (dry_run : bool)
    (w w' : World) (e : exn) (h : list (list str)) (lg : list log_line) :
  listing_fails rclone_lsjson lsjson_fallback root_src w e w' \/
  (exists L1 w1,
      listed rclone_lsjson lsjson_fallback root_src w L1 w1 /\
      listing_fails rclone_lsjson lsjson_fallback root_dst w1 e w') ->
  exists lg',
    complete_list_check_run lower
      (unrecorded rclone_lsjson) (unrecorded lsjson_fallback)
      (unrecorded write_file)
      (recording (fun cmd : list str => cmd) rclone_run)
      log_folder start_datetime root_src root_dst dry_run
      {| world := (w, h); log := lg |}
    = (inr e, {| world := (w', h); log := lg' |}).
Proof. apply complete_list_check_run_fails. Qed.

Lemma failed_listing_purges_nothing_witness :
  exists lg',
    complete_list_check_run ascii_lower
      (unrecorded example_lsjson) (unrecorded example_fallback)
      (unrecorded example_write)
      (recording (fun cmd : list str => cmd) scripted_run)
      (lit "log") (lit "2024-01-01-000000") (lit "src:") (lit "gone:") false
      {| world := ([], []); log := [] |}
    = (inr (mk_exn (lit "directory not found") None),
       {| world := ([], []); log := lg' |}).
Proof.
  apply (failed_listing_purges_nothing ascii_lower example_lsjson
           example_fallback example_write scripted_run
           (lit "log") (lit "2024-01-01-000000") (lit "src:") (lit "gone:")
           false [] [] (mk_exn (lit "directory not found") None) [] []).
  right. exists [mk_ls_item (lit "a") true], [].
  split; left; reflexivity.
Defined.

(* ===================================================================== *)
(** * Every call of [complete_list_check] *)
(* ===================================================================== *)

(** ** The set-up of [rclone] *)

Lemma rclone_setup_unrecorded {World Event : Type}
    (appdata_path : option str) (config_path_of : str -> str)
    (path_exists : str -> World -> bool * World)
    (rclone_init : str -> World -> (unit + exn) * World)
    (w : World) (h : list Event) (lg : list log_line) :
  rclone_setup appdata_path config_path_of
    (unrecorded path_exists) (unrecorded rclone_init)
    {| world := (w, h); log := lg |}
  = match appdata_path with
    | Some a =>
        if truthy a then
          let '(found, w1) := path_exists (config_path_of a) w in
          if found then
            let '(r, w2) := rclone_init (config_path_of a) w1 in
            (r, {| world := (w2, h); log := lg |})
          else (inr (config_missing (config_path_of a)),
                {| world := (w1, h); log := lg |})
        else (inr appdata_missing, {| world := (w, h); log := lg |})
    | None => (inr appdata_missing, {| world := (w, h); log := lg |})
    end.
Proof.
  unfold rclone_setup. destruct appdata_path as [a|]; [|done].
  destruct (truthy a); [|done].
  unfold unrecorded, call, raise. cbn [world log fst snd].
  destruct (path_exists (config_path_of a) w) as [[] w1]; [|done].
  cbn [world log fst snd].
  by destruct (rclone_init (config_path_of a) w1) as [r w2].
Qed.

Lemma rclone_setup_quiet {World Event : Type}
    (appdata_path : option str) (config_path_of : str -> str)
    (path_exists : str -> World -> bool * World)
    (rclone_init : str -> World -> (unit + exn) * World)
    (w : World) (h : list Event) (lg : list log_line) :
  exists r w',
    rclone_setup appdata_path config_path_of
      (unrecorded path_exists) (unrecorded rclone_init)
      {| world := (w, h); log := lg |}
    = (r, {| world := (w', h); log := lg |}).
Proof.
  rewrite rclone_setup_unrecorded.
  destruct appdata_path as [a|]; [|by eexists _, _].
  destruct (truthy a); [|by eexists _, _].
  destruct (path_exists (config_path_of a) w) as [[] w1]; [|by eexists _, _].
  destruct (rclone_init (config_path_of a) w1) as [r w2]. by eexists _, _.
Qed.

Lemma rclone_setup_done {World Event : Type}
    (appdata_path : option str) (config_path_of : str -> str)
    (path_exists : str -> World -> bool * World)
    (rclone_init : str -> World -> (unit + exn) * World)
    (a : str) (w wa w0 : World) (h : list Event) (lg : list log_line) :
  appdata_path = Some a -> a <> [] ->
  path_exists (config_path_of a) w = (true, wa) ->
  rclone_init (config_path_of a) wa = (inl tt, w0) ->
  rclone_setup appdata_path config_path_of
    (unrecorded path_exists) (unrecorded rclone_init)
    {| world := (w, h); log := lg |}
  = (inl tt, {| world := (w0, h); log := lg |}).
Proof.
  intros Ha Hne Hex Hinit. rewrite rclone_setup_unrecorded, Ha.
  assert (truthy a = true) as -> by by destruct a.
  by rewrite Hex, Hinit.
Qed.

(** ** The calls that may be made *)

Lemma listing_calls_allowed {World : Type}
    (rclone_lsjson : str -> World -> lsjson_result * World)
    (log_folder start_datetime root_src root_dst : str) (dry_run : bool)
    (path : str) (w : World) :
  path = root_src \/ path = root_dst ->
  Forall (allowed_call log_folder start_datetime root_src root_dst dry_run)
    (listing_calls rclone_lsjson path w).
Proof.
  intros H. unfold listing_calls. constructor; [exact H|].
  destruct (fst (rclone_lsjson path w)); [constructor| |constructor].
  constructor; [|constructor]. simpl.
  destruct H as [-> | ->]; [by left|by right; left].
Qed.

Lemma purge_calls_allowed
    (log_folder start_datetime root_src root_dst : str) (paths : list str) :
  Forall (allowed_call log_folder start_datetime root_src root_dst false)
    (map (fun p => RunCall (purge_cmd root_dst p)) paths).
Proof.
  apply Forall_forall. intros c Hc. apply list_elem_of_fmap in Hc.
  destruct Hc as (p & -> & _). simpl. right; right. split; [done|by exists p].
Qed.

Lemma allowed_dry_run_lsjson
    (log_folder start_datetime root_src root_dst : str) (cmd : list str) :
  allowed_call log_folder start_datetime root_src root_dst true (RunCall cmd)
  -> head cmd = Some (lit "lsjson").
Proof. simpl. by intros [-> | [-> | [? _]]]. Qed.

(** ** The calls that are made *)

Section CompleteListCheckCalls.
Context (lower : str -> str).
Context {World : Type}.
Context (appdata_path : option str) (config_path_of : str -> str).
Context (path_exists : str -> World -> bool * World).
Context (rclone_init : str -> World -> (unit + exn) * World).
Context (rclone_lsjson : str -> World -> lsjson_result * World).
Context (lsjson_fallback : list str -> World -> (list ls_item + exn) * World).
Context (write_file : str * list str -> World -> (unit + exn) * World).
Context (rclone_run : list str -> World -> (unit + exn) * World).
Context (log_folder start_datetime : str).

Let path_exists' := unrecorded (Event:=outside_call) path_exists.
Let init' := unrecorded (Event:=outside_call) rclone_init.
Let lsjson' := recording LsjsonCall rclone_lsjson.
Let fallback' := recording RunCall lsjson_fallback.
Let write' :=
  recording (fun c : str * list str => WriteFile (fst c) (snd c)) write_file.
Let run' := recording RunCall rclone_run.

Lemma collect_structure_of_calls (path : str) (is_source : bool)
    (w : World) (h : list outside_call) (lg : list log_line) :
  exists r w' lg',
    collect_structure_of lsjson' fallback' path is_source
      {| world := (w, h); log := lg |}
    = (r, {| world := (w', h ++ listing_calls rclone_lsjson path w);
             log := lg' |}).
Proof.
  unfold collect_structure_of, listing_calls, lsjson', fallback', recording.
  cbn [world log fst snd].
  destruct (rclone_lsjson path w) as [[listing| |e] w1]; cbn [fst snd].
  - by eexists _, _, _.
  - unfold bind, call, lsjson_cmd. cbn [world log fst snd].
    destruct (lsjson_fallback _ w1) as [[listing|e] w2];
      cbn [world log fst snd]; eexists _, _, _; rewrite <- app_assoc;
      reflexivity.
  - by eexists _, _, _.
Qed.

Lemma collect_structure_of_calls_listed (path : str) (is_source : bool)
    (w w1 : World) (listing : list ls_item)
    (h : list outside_call) (lg : list log_line) :
  listed rclone_lsjson lsjson_fallback path w listing w1 ->
  exists lg',
    collect_structure_of lsjson' fallback' path is_source
      {| world := (w, h); log := lg |}
    = (inl (collect_structure listing),
       {| world := (w1, h ++ listing_calls rclone_lsjson path w);
          log := lg' |}).
Proof.
  unfold collect_structure_of, listing_calls, lsjson', fallback', recording.
  cbn [world log fst snd].
  intros [Hl|(w0 & Hl & Hf)]; rewrite Hl; cbn [fst snd].
  - by eexists.
  - unfold bind, call. cbn [world log fst snd]. rewrite Hf.
    cbn [world log fst snd]. eexists. rewrite <- app_assoc. reflexivity.
Qed.

Lemma save_folder_lists_calls (root_src root_dst : str) (S D : gset str)
    (w : World) (h : list outside_call) (lg : list log_line) :
  let file := folder_list_path log_folder start_datetime in
  let chunks := folder_list_chunks root_src root_dst S D in
  exists lg',
    save_folder_lists write' log_folder start_datetime root_src root_dst S D
      {| world := (w, h); log := lg |}
    = (inl tt,
       {| world := (snd (write_file (file, chunks) w),
                    h ++ [WriteFile file chunks]);
          log := lg' |}).
Proof.
  unfold save_folder_lists, folder_list_path, try_except, bind, call, write',
    recording, logging.
  cbn [world log fst snd].
  destruct (write_file _ w) as [[[]|e] w']; cbn [world log fst snd];
    by eexists.
Qed.

(** With [rclone] set up and both locations listed, the run comes to step 4
    with the two listings made and the folder list written. *)
Lemma complete_list_check_full_listed (root_src root_dst : str)
    (dry_run : bool) (a : str) (w wa w0 w1 w2 : World)
    (L1 L2 : list ls_item) (h : list outside_call) (lg : list log_line) :
  appdata_path = Some a -> a <> [] ->
  path_exists (config_path_of a) w = (true, wa) ->
  rclone_init (config_path_of a) wa = (inl tt, w0) ->
  listed rclone_lsjson lsjson_fallback root_src w0 L1 w1 ->
  listed rclone_lsjson lsjson_fallback root_dst w1 L2 w2 ->
  let file := folder_list_path log_folder start_datetime in
  let chunks :=
    folder_list_chunks root_src root_dst
      (collect_structure L1) (collect_structure L2) in
  exists lg3,
    complete_list_check_full lower appdata_path config_path_of
      path_exists' init' lsjson' fallback' write' run'
      log_folder start_datetime root_src root_dst dry_run
      {| world := (w, h); log := lg |}
    = complete_list_check lower run' root_dst dry_run
        (collect_structure L1) (collect_structure L2)
        {| world :=
             (snd (write_file (file, chunks) w2),
              h ++ listing_calls rclone_lsjson root_src w0
                ++ listing_calls rclone_lsjson root_dst w1
                ++ [WriteFile file chunks]);
           log := lg3 |}.
Proof.
  intros Ha Hne Hex Hinit H1 H2. cbv zeta. unfold complete_list_check_full.
  rewrite (bind_inl _ _ _ _ _
             (rclone_setup_done appdata_path config_path_of path_exists
                rclone_init a w wa w0 h lg Ha Hne Hex Hinit)).
  unfold complete_list_check_run. rewrite !bind_logging. cbn [world log].
  edestruct (collect_structure_of_calls_listed root_src true) as [lg1 Hc1];
    [exact H1|].
  rewrite (bind_inl _ _ _ _ _ Hc1), bind_logging. cbn [world log].
  edestruct (collect_structure_of_calls_listed root_dst false) as [lg2 Hc2];
    [exact H2|].
  rewrite (bind_inl _ _ _ _ _ Hc2).
  edestruct (save_folder_lists_calls root_src root_dst) as [lg3 Hs].
  rewrite (bind_inl _ _ _ _ _ Hs).
  exists lg3. by rewrite <- !app_assoc.
Qed.

(** Whatever the outside world answers, the calls of a run are allowed
    ones. *)
Lemma complete_list_check_full_calls (root_src root_dst : str)
    (dry_run : bool) (w : World) (h : list outside_call)
    (lg : list log_line) :
  exists r w' lg' calls,
    complete_list_check_full lower appdata_path config_path_of
      path_exists' init' lsjson' fallback' write' run'
      log_folder start_datetime root_src root_dst dry_run
      {| world := (w, h); log := lg |}
    = (r, {| world := (w', h ++ calls); log := lg' |}) /\
    Forall (allowed_call log_folder start_datetime root_src root_dst dry_run)
      calls.
Proof.
  unfold complete_list_check_full.
  destruct (rclone_setup_quiet appdata_path config_path_of path_exists
              rclone_init w h lg) as ([[]|e] & w0 & Hs).
  2:{ rewrite (bind_inr _ _ _ _ _ Hs). exists (inr e), w0, lg, [].
      split; [by rewrite app_nil_r|constructor]. }
  rewrite (bind_inl _ _ _ _ _ Hs).
  unfold complete_list_check_run. rewrite !bind_logging. cbn [world log].
  pose proof (listing_calls_allowed rclone_lsjson log_folder start_datetime
                root_src root_dst dry_run root_src w0 (or_introl eq_refl))
    as Hsrc.
  edestruct (collect_structure_of_calls root_src true w0 h)
    as ([S|e] & w1 & lg1 & Hc1).
  2:{ rewrite (bind_inr _ _ _ _ _ Hc1). by eexists _, _, _, _. }
  rewrite (bind_inl _ _ _ _ _ Hc1), bind_logging. cbn [world log].
  pose proof (listing_calls_allowed rclone_lsjson log_folder start_datetime
                root_src root_dst dry_run root_dst w1 (or_intror eq_refl))
    as Hdst.
  edestruct (collect_structure_of_calls root_dst false w1)
    as ([D|e] & w2 & lg2 & Hc2).
  2:{ rewrite (bind_inr _ _ _ _ _ Hc2). eexists _, _, _, _.
      split; [by rewrite <- app_assoc|]. by apply Forall_app. }
  rewrite (bind_inl _ _ _ _ _ Hc2).
  edestruct (save_folder_lists_calls root_src root_dst S D) as [lg3 Hsv].
  rewrite (bind_inl _ _ _ _ _ Hsv).
  edestruct (complete_list_check_recorded lower rclone_run RunCall root_dst
               dry_run S D) as (w4 & lg4 & Hp & _).
  unfold run'. rewrite Hp. eexists _, _, _, _.
  split; [by rewrite <- !app_assoc|].
  rewrite !Forall_app. split; [done|]. split; [done|]. split.
  - by constructor.
  - destruct dry_run; [constructor|apply purge_calls_allowed].
Qed.
End CompleteListCheckCalls.

(** X9. The calls of [complete_list_check], whatever the outside world
    answers and whether the function returns or raises: listings of the two
    roots (the method [lsjson], and its command line when the method is
    missing), the writing of [folder_list.txt], and, unless it is a dry
    run, purges of a path joined to the destination root.  In a dry run
    every command line run is a listing: nothing is purged. *)
Theorem calls_of_complete_list_check
    (lower : str -> str) {World : Type}
    (appdata_path : option str) (config_path_of : str -> str)
    (path_exists : str -> World -> bool * World)
    (rclone_init : str -> World -> (unit + exn) * World)
    (rclone_lsjson : str -> World -> lsjson_result * World)
    (lsjson_fallback : list str -> World -> (list ls_item + exn) * World)
    (write_file : str * list str -> World -> (unit + exn) * World)
    (rclone_run : list str -> World -> (unit + exn) * World)
    (log_folder start_datetime root_src root_dst : str) (dry_run : bool)
    (w : World) (h : list outside_call) (lg : list log_line) :
  exists r w' lg' calls,
    complete_list_check_full lower appdata_path config_path_of
      (unrecorded path_exists) (unrecorded rclone_init)
      (recording LsjsonCall rclone_lsjson)
      (recording RunCall lsjson_fallback)
      (recording (fun c : str * list str => WriteFile (fst c) (snd c))
         write_file)
      (recording RunCall rclone_run)
      log_folder start_datetime root_src root_dst dry_run
      {| world := (w, h); log := lg |}
    = (r, {| world := (w', h ++ calls); log := lg' |}) /\
    Forall (allowed_call log_folder start_datetime root_src root_dst dry_run)
      calls /\
    (dry_run = true ->
     forall cmd, RunCall cmd ∈ calls -> head cmd = Some (lit "lsjson")).
Proof.
  destruct (complete_list_check_full_calls lower appdata_path config_path_of
              path_exists rclone_init rclone_lsjson lsjson_fallback write_file
              rclone_run log_folder start_datetime root_src root_dst dry_run
              w h lg) as (r & w' & lg' & calls & Hrun & Hall).
  exists r, w', lg', calls. split; [exact Hrun|]. split; [exact Hall|].
  intros -> cmd Hin. rewrite Forall_forall in Hall.
  eapply allowed_dry_run_lsjson, Hall, Hin.
Qed.

(** X10. A destination with no folder that the source lacks: with [rclone]
    set up and both locations listed, [complete_list_check] with
    [dry_run=False] returns; its calls are the two listings and the writing
    of [folder_list.txt] and no other, so nothing is purged; and its log
    ends with the count of zero. *)
Theorem in_sync_purges_nothing
    (lower : str -> str) {World : Type}
    (appdata_path : option str) (config_path_of : str -> str)
    (path_exists : str -> World -> bool * World)
    (rclone_init : str -> World -> (unit + exn) * World)
    (rclone_lsjson : str -> World -> lsjson_result * World)
    (lsjson_fallback : list str -> World -> (list ls_item + exn) * World)
    (write_file : str * list str -> World -> (unit + exn) * World)
    (rclone_run : list str -> World -> (unit + exn) * World)
    (log_folder start_datetime root_src root_dst : str)
    (a : str) (w wa w0 w1 w2 : World) (L1 L2 : list ls_item)
    (h : list outside_call) (lg : list log_line) :
  appdata_path = Some a -> a <> [] ->
  path_exists (config_path_of a) w = (true, wa) ->
  rclone_init (config_path_of a) wa = (inl tt, w0) ->
  listed rclone_lsjson lsjson_fallback root_src w0 L1 w1 ->
  listed rclone_lsjson lsjson_fallback root_dst w1 L2 w2 ->
  (forall item,
      item ∈ L2 -> IsDir item = true ->
      exists item', item' ∈ L1 /\ Path item' = Path item
                    /\ IsDir item' = true) ->
  let file := folder_list_path log_folder start_datetime in
  let chunks :=
    folder_list_chunks root_src root_dst
      (collect_structure L1) (collect_structure L2) in
  exists lg',
    complete_list_check_full lower appdata_path config_path_of
      (unrecorded path_exists) (unrecorded rclone_init)
      (recording LsjsonCall rclone_lsjson)
      (recording RunCall lsjson_fallback)
      (recording (fun c : str * list str => WriteFile (fst c) (snd c))
         write_file)
      (recording RunCall rclone_run)
      log_folder start_datetime root_src root_dst false
      {| world := (w, h); log := lg |}
    = (inl tt,
       {| world :=
            (snd (write_file (file, chunks) w2),
             h ++ listing_calls rclone_lsjson root_src w0
               ++ listing_calls rclone_lsjson root_dst w1
               ++ [WriteFile file chunks]);
          log := lg'
                 ++ [(INFO, lit "Starting folder deletions purging");
                     (INFO, lit "Purged 0 folders successfully.");
                     (INFO, lit "Folder structure sync completed.")] |}).
Proof.
  intros Ha Hne Hex Hinit H1 H2 Hsub. cbv zeta.
  destruct (complete_list_check_full_listed lower appdata_path config_path_of
              path_exists rclone_init rclone_lsjson lsjson_fallback write_file
              rclone_run log_folder start_datetime root_src root_dst false
              a w wa w0 w1 w2 L1 L2 h lg Ha Hne Hex Hinit H1 H2)
    as [lg3 Hrun].
  exists lg3. rewrite Hrun. apply complete_list_check_in_sync.
  intros p Hp. apply collect_structure_elem_of in Hp.
  destruct Hp as (item & Hin & <- & Hdir).
  apply collect_structure_elem_of. by apply Hsub.
Qed.

(** A destination with the folder [a] of a source with [a], [b] and
    [b/c]. *)
Lemma in_sync_purges_nothing_witness :
  exists lg',
    complete_list_check_full ascii_lower example_appdata example_config_path
      (unrecorded example_exists) (unrecorded example_init)
      (recording LsjsonCall example_lsjson)
      (recording RunCall example_fallback)
      (recording (fun c : str * list str => WriteFile (fst c) (snd c))
         example_write)
      (recording RunCall scripted_run)
      (lit "log") (lit "2024-01-01-000000") (lit "dst:") (lit "src:") false
      {| world := ([], []); log := [] |}
    = (inl tt,
       {| world :=
            ([],
             [] ++ [LsjsonCall (lit "dst:")] ++ [LsjsonCall (lit "src:")]
               ++ [WriteFile (lit "log/2024-01-01-000000_folder_list.txt")
                     (folder_list_chunks (lit "dst:") (lit "src:")
                        (list_to_set [lit "a"; lit "b"; lit "b/c"])
                        (list_to_set [lit "a"]))]);
          log := lg'
                 ++ [(INFO, lit "Starting folder deletions purging");
                     (INFO, lit "Purged 0 folders successfully.");
                     (INFO, lit "Folder structure sync completed.")] |}).
Proof.
  refine (in_sync_purges_nothing ascii_lower example_appdata
            example_config_path example_exists example_init example_lsjson
            example_fallback example_write scripted_run
            (lit "log") (lit "2024-01-01-000000") (lit "dst:") (lit "src:")
            (lit "C:\Users\me\AppData\Roaming") [] [] [] [] []
            [mk_ls_item (lit "a") true; mk_ls_item (lit "b") true;
             mk_ls_item (lit "b/c") true; mk_ls_item (lit "f.txt") false]
            [mk_ls_item (lit "a") true]
            [] [] _ _ _ _ _ _ _).
  - reflexivity.
  - by vm_compute.
  - reflexivity.
  - reflexivity.
  - left. reflexivity.
  - left. reflexivity.
  - intros item Hin _. apply list_elem_of_In in Hin.
    destruct Hin as [<-|[]]. exists (mk_ls_item (lit "a") true).
    split; [by left|]. split; reflexivity.
Defined.

(** X11. From the two listings to the purges: with [rclone] set up and both
    locations listed, by the method or by the fallback command,
    [complete_list_check] returns and its calls are, in this order, the
    listing of the source, the listing of the destination, the writing of
    [folder_list.txt] and, unless it is a dry run, the purges of the
    folders of the destination listing that are not folders of the source
    listing, deepest first; a dry run leaves the outside world as the
    writing of the file left it. *)
Theorem listings_then_purges
    (lower : str -> str) {World : Type}
    (appdata_path : option str) (config_path_of : str -> str)
    (path_exists : str -> World -> bool * World)
    (rclone_init : str -> World -> (unit + exn) * World)
    (rclone_lsjson : str -> World -> lsjson_result * World)
    (lsjson_fallback : list str -> World -> (list ls_item + exn) * World)
    (write_file : str * list str -> World -> (unit + exn) * World)
    (rclone_run : list str -> World -> (unit + exn) * World)
    (log_folder start_datetime root_src root_dst : str) (dry_run : bool)
    (a : str) (w wa w0 w1 w2 : World) (L1 L2 : list ls_item)
    (h : list outside_call) (lg : list log_line) :
  appdata_path = Some a -> a <> [] ->
  path_exists (config_path_of a) w = (true, wa) ->
  rclone_init (config_path_of a) wa = (inl tt, w0) ->
  listed rclone_lsjson lsjson_fallback root_src w0 L1 w1 ->
  listed rclone_lsjson lsjson_fallback root_dst w1 L2 w2 ->
  let file := folder_list_path log_folder start_datetime in
  let chunks :=
    folder_list_chunks root_src root_dst
      (collect_structure L1) (collect_structure L2) in
  let purged :=
    sorted_to_delete (collect_structure L1) (collect_structure L2) in
  (exists w' lg',
      complete_list_check_full lower appdata_path config_path_of
        (unrecorded path_exists) (unrecorded rclone_init)
        (recording LsjsonCall rclone_lsjson)
        (recording RunCall lsjson_fallback)
        (recording (fun c : str * list str => WriteFile (fst c) (snd c))
           write_file)
        (recording RunCall rclone_run)
        log_folder start_datetime root_src root_dst dry_run
        {| world := (w, h); log := lg |}
      = (inl tt,
         {| world :=
              (w',
               h ++ listing_calls rclone_lsjson root_src w0
                 ++ listing_calls rclone_lsjson root_dst w1
                 ++ [WriteFile file chunks]
                 ++ (if dry_run then []
                     else map (fun p => RunCall (purge_cmd root_dst p))
                            purged));
            log := lg' |}) /\
      (dry_run = true -> w' = snd (write_file (file, chunks) w2))) /\
  (forall p,
      p ∈ purged <->
      (exists item, item ∈ L2 /\ Path item = p /\ IsDir item = true) /\
      ~ (exists item, item ∈ L1 /\ Path item = p /\ IsDir item = true)).
Proof.
  intros Ha Hne Hex Hinit H1 H2. cbv zeta. split.
  - destruct (complete_list_check_full_listed lower appdata_path
                config_path_of path_exists rclone_init rclone_lsjson
                lsjson_fallback write_file rclone_run log_folder
                start_datetime root_src root_dst dry_run
                a w wa w0 w1 w2 L1 L2 h lg Ha Hne Hex Hinit H1 H2)
      as [lg3 Hrun].
    edestruct (complete_list_check_recorded lower rclone_run RunCall root_dst
                 dry_run (collect_structure L1) (collect_structure L2))
      as (w4 & lg4 & Hp & Hdry).
    exists w4, lg4. rewrite Hrun, Hp. split; [|exact Hdry].
    by rewrite <- !app_assoc.
  - intros p.
    by rewrite sorted_to_delete_elem_of, !collect_structure_elem_of.
Qed.

(** A destination with the folders [b] and [b/c] that the source lacks. *)
Lemma listings_then_purges_witness :
  exists w' lg',
    complete_list_check_full ascii_lower example_appdata example_config_path
      (unrecorded example_exists) (unrecorded example_init)
      (recording LsjsonCall example_lsjson)
      (recording RunCall example_fallback)
      (recording (fun c : str * list str => WriteFile (fst c) (snd c))
         example_write)
      (recording RunCall scripted_run)
      (lit "log") (lit "2024-01-01-000000") (lit "src:") (lit "dst:") false
      {| world := ([], []); log := [] |}
    = (inl tt,
       {| world :=
            (w',
             [] ++ [LsjsonCall (lit "src:")] ++ [LsjsonCall (lit "dst:")]
               ++ [WriteFile (lit "log/2024-01-01-000000_folder_list.txt")
                     (folder_list_chunks (lit "src:") (lit "dst:")
                        (list_to_set [lit "a"])
                        (list_to_set [lit "a"; lit "b"; lit "b/c"]))]
               ++ [RunCall [lit "purge"; lit "dst:/b/c"];
                   RunCall [lit "purge"; lit "dst:/b"]]);
          log := lg' |}) /\
    (false = true -> w' = []).
Proof.
  refine (proj1 (listings_then_purges ascii_lower example_appdata
                   example_config_path example_exists example_init
                   example_lsjson example_fallback example_write scripted_run
                   (lit "log") (lit "2024-01-01-000000")
                   (lit "src:") (lit "dst:") false
                   (lit "C:\Users\me\AppData\Roaming") [] [] [] [] []
                   [mk_ls_item (lit "a") true]
                   [mk_ls_item (lit "a") true; mk_ls_item (lit "b") true;
                    mk_ls_item (lit "b/c") true;
                    mk_ls_item (lit "f.txt") false]
                   [] [] _ _ _ _ _ _)).
  - reflexivity.
  - by vm_compute.
  - reflexivity.
  - reflexivity.
  - left. reflexivity.
  - left. reflexivity.
Defined.

(* ===================================================================== *)
(** * The backup *)
(* ===================================================================== *)

(** The items that are copied, and the items that are deleted. *)
Lemma plan_sync_foldl (root_dst : str) (diffs : list DiffItem)
    (to_copy to_delete : list str) :
  foldl (plan_item root_dst) (to_copy, to_delete) diffs
  = (to_copy
       ++ map item_path
            (List.filter
               (fun x => match item_type x with
                         | DiffType.MISSING_ON_DST | DiffType.DIFFERENT => true
                         | _ => false
                         end) diffs),
     to_delete
       ++ map (fun x => root_dst ++ lit "/" ++ item_path x)
            (List.filter
               (fun x => match item_type x with
                         | DiffType.MISSING_ON_SRC => true
                         | _ => false
                         end) diffs)).
Proof.
  revert to_copy to_delete.
  induction diffs as [|x diffs IH]; intros to_copy to_delete.
  { simpl. by rewrite !app_nil_r. }
  cbn [foldl List.filter]. unfold plan_item at 2.
  destruct (item_type x); rewrite IH; simpl; by rewrite <- ?app_assoc.
Qed.

(** X13. The plan of the backup: [to_copy] holds, in the order of the
    differences, the paths of the items missing on the destination or
    different, [to_delete] the destination paths of the items missing on
    the source; an equal item, or one of another type, is in neither, and
    no item is in both. *)
Theorem plan_sync_partition (root_dst : str) (diffs : list DiffItem) :
  let is_copy x :=
    match item_type x with
    | DiffType.MISSING_ON_DST | DiffType.DIFFERENT => true
    | _ => false
    end in
  let is_delete x :=
    match item_type x with
    | DiffType.MISSING_ON_SRC => true
    | _ => false
    end in
  plan_sync root_dst diffs
  = (map item_path (List.filter is_copy diffs),
     map (fun x => root_dst ++ lit "/" ++ item_path x)
       (List.filter is_delete diffs)) /\
  (length (fst (plan_sync root_dst diffs))
   + length (snd (plan_sync root_dst diffs))
   + length (List.filter (fun x => negb (is_copy x) && negb (is_delete x)) diffs)
   = length diffs)%nat /\
  (forall x, is_copy x && is_delete x = false).
Proof.
  simpl. unfold plan_sync. rewrite plan_sync_foldl. simpl.
  split; [done|split].
  - rewrite !length_map.
    induction diffs as [|x diffs IH]; simpl; [done|].
    destruct (item_type x); simpl; lia.
  - intros x. by destruct (item_type x).
Qed.

Section BackupLemmas.
Context (lower : str -> str).
Context {World : Type}.
Context (rclone_diff : str * str -> World -> (list DiffItem + exn) * World).
Context (copy_files
         : str * str * list str -> World
           -> (list CompletedProcess + exn) * World).
Context (delete_files
         : list str -> World -> (CompletedProcess + exn) * World).

Let diff' := unrecorded (Event:=sync_call) rclone_diff.
Let copy' :=
  recording (fun c : str * str * list str =>
               CopyFiles (fst (fst c)) (snd (fst c)) (snd c)) copy_files.
Let delete' := recording DeleteFiles delete_files.

Lemma perform_sync_recorded (root_src root_dst : str) (diffs : list DiffItem)
    (w : World) (h : list sync_call) (lg : list log_line) :
  exists w' lg',
    perform_sync copy' delete' root_src root_dst diffs
      {| world := (w, h); log := lg |}
    = (inl tt,
       {| world := (w', h ++ sync_calls root_src root_dst diffs);
          log := lg' |}).
Proof.
  unfold perform_sync, sync_calls.
  destruct (plan_sync root_dst diffs) as [to_copy to_delete].
  rewrite !bind_logging. cbn [world log].
  match goal with
  | |- context [bind ?m ?k ?st] =>
      assert (exists w1 lg1,
                 m st
                 = (inl tt,
                    {| world :=
                         (w1, h ++ if nonempty to_copy
                                   then [CopyFiles root_src root_dst to_copy]
                                   else []);
                       log := lg1 |})) as (w1 & lg1 & Hcopy)
  end.
  { destruct to_copy as [|f to_copy]; simpl.
    { exists w. eexists. unfold ret. by rewrite app_nil_r. }
    rewrite bind_logging. cbn [world log].
    unfold try_except, bind, call, copy', recording. simpl.
    destruct (copy_files _ w) as [[results|e] w1]; simpl.
    - destruct (nonempty _); by eexists _, _.
    - by eexists _, _. }
  rewrite (bind_inl _ _ _ _ _ Hcopy).
  destruct to_delete as [|f to_delete]; simpl.
  { exists w1. eexists. unfold ret. by rewrite !app_nil_r. }
  rewrite bind_logging. cbn [world log].
  unfold try_except, bind, call, delete', recording. simpl.
  destruct (delete_files _ w1) as [[result|e] w2]; simpl.
  - destruct (negb _); eexists _, _; by rewrite <- app_assoc.
  - eexists _, _; by rewrite <- app_assoc.
Qed.


End BackupLemmas.


(** X14. [perform_sync] does not raise.  It calls the batch copy when there
    is something to copy, and then the batch delete when there is something
    to delete, also after a copy that failed or raised; with nothing to do
    it makes no call. *)
Theorem sync_calls_made {World : Type}
    (copy_files
     : str * str * list str -> World -> (list CompletedProcess + exn) * World)
    (delete_files : list str -> World -> (CompletedProcess + exn) * World)
    (root_src root_dst : str) (diffs : list DiffItem)
    (w : World) (h : list sync_call) (lg : list log_line) :
  let to_copy := fst (plan_sync root_dst diffs) in
  let to_delete := snd (plan_sync root_dst diffs) in
  exists w' lg',
    perform_sync
      (recording (fun c : str * str * list str =>
                    CopyFiles (fst (fst c)) (snd (fst c)) (snd c)) copy_files)
      (recording DeleteFiles delete_files)
      root_src root_dst diffs {| world := (w, h); log := lg |}
    = (inl tt,
       {| world :=
            (w', h
                 ++ (if nonempty to_copy
                     then [CopyFiles root_src root_dst to_copy] else [])
                 ++ (if nonempty to_delete
                     then [DeleteFiles to_delete] else []));
          log := lg' |}).
Proof.
  simpl.
  destruct (perform_sync_recorded copy_files delete_files root_src root_dst
              diffs w h lg) as (w' & lg' & H).
  exists w', lg'. rewrite H. unfold sync_calls.
  by destruct (plan_sync root_dst diffs).
Qed.



(* ===================================================================== *)
(** * The batch loop *)
(* ===================================================================== *)

Lemma bind_assoc {St E A B C : Type} (m : M (St:=St) (E:=E) A)
    (k : A -> M (St:=St) (E:=E) B) (g : B -> M (St:=St) (E:=E) C) (st : St) :
  bind m (fun a => bind (k a) g) st = bind (bind m k) g st.
Proof. unfold bind. by destruct (m st) as [[a|e] st']. Qed.

Lemma for_each_app {St E X A : Type} (xs ys : list X)
    (body : X -> A -> M (St:=St) (E:=E) A) (acc : A) (st : St) :
  for_each (xs ++ ys) body acc st
  = bind (for_each xs body acc) (for_each ys body) st.
Proof.
  revert acc st. induction xs as [|x xs IH]; intros acc st; simpl; [done|].
  unfold bind. destruct (body x acc st) as [[a|e] st']; [|done].
  rewrite IH. done.
Qed.

(** X16. The batch stops at the first pair whose processing raises: the
    exception is logged as an error, the pairs after it are not processed,
    and the script does not raise. *)
Theorem batch_stops_at_first_failure {World : Type}
    (process : str -> str -> M (St:=run_state (World:=World)) (E:=exn) unit)
    (width : nat) (rows : list (list str))
    (pre post : list (str * str)) (pair : str * str)
    (st st0 st1 st2 : run_state) (e : exn) :
  read_folders_to_sync rows = inr (pre ++ pair :: post) ->
  (exec logging INFO (lit "Folders to process:") ;;
   for_each (pre ++ pair :: post) announce_pair tt) st = (inl tt, st0) ->
  for_each pre (process_pair process width) tt st0 = (inl tt, st1) ->
  process_pair process width pair tt st1 = (inr e, st2) ->
  main_batch process width (inr rows) st
  = (inl tt,
     {| world := world st2;
        log := log st2
               ++ [(ERROR,
                    lit "Error reading or processing CSV file: "
                      ++ exn_str e)] |}).
Proof.
  intros Hread Hannounce Hpre Hpair.
  unfold main_batch, try_except.
  assert (read_csv (World:=World) (inr rows) st
          = (inl (pre ++ pair :: post), st)) as Hcsv
    by (unfold read_csv; by rewrite Hread).
  rewrite (bind_inl _ _ _ _ _ Hcsv).
  assert (nonempty (pre ++ pair :: post) = true) as -> by by destruct pre.
  cbn [negb]. rewrite bind_assoc, (bind_inl _ _ _ _ _ Hannounce).
  rewrite for_each_app, (bind_inl _ _ _ _ _ Hpre).
  cbn [for_each]. by rewrite (bind_inr _ _ _ _ _ Hpair).
Qed.

Lemma batch_stops_at_first_failure_witness :
  exists st',
    main_batch example_process 200
      (inr [ [lit "source"; lit "target"];
             [lit "good:"; lit "d1:"];
             [lit "bad:"; lit "d2:"];
             [lit "later:"; lit "d3:"] ])
      {| world := tt; log := [] |}
    = (inl tt, st') /\
    last (log st')
    = Some (ERROR, lit "Error reading or processing CSV file: listing failed").
Proof.
  eexists. split.
  - eapply (batch_stops_at_first_failure example_process 200 _
              [(lit "good:", lit "d1:")] [(lit "later:", lit "d3:")]
              (lit "bad:", lit "d2:")).
    + reflexivity.
    + reflexivity.
    + reflexivity.
    + reflexivity.
  - reflexivity.
Defined.

(** X17. The batch never raises.  When the file cannot be read the error is
    logged; a file without a header row is logged as an error with an empty
    text; a file with a header row only is logged as a warning; in these
    cases no pair is processed. *)
Theorem batch_never_raises {World : Type}
    (process : str -> str -> M (St:=run_state (World:=World)) (E:=exn) unit)
    (width : nat) (st : run_state) :
  (forall csv, exists st', main_batch process width csv st = (inl tt, st')) /\
  (forall e,
      main_batch process width (inl e) st
      = (inl tt,
         {| world := world st;
            log := log st
                   ++ [(ERROR,
                        lit "Error reading or processing CSV file: "
                          ++ exn_str e)] |})) /\
  main_batch process width (inr []) st
  = (inl tt,
     {| world := world st;
        log := log st
               ++ [(ERROR, lit "Error reading or processing CSV file: ")] |}) /\
  (forall header,
      main_batch process width (inr [header]) st
      = (inl tt,
         {| world := world st;
            log := log st
                   ++ [(WARNING,
                        lit "No valid source-target pairs found in the CSV file.")]
         |})).
Proof.
  split; [|split; [|split]].
  - intros csv. unfold main_batch, try_except.
    match goal with |- context [match ?m with _ => _ end] =>
      destruct m as [[[]|e] st'] end; by eexists.
  - done.
  - done.
  - done.
Qed.

Lemma read_row_cases (row : list str) :
  read_row [] row = [] \/
  ((2 <= length row)%nat /\
   strip (column row 0) <> [] /\ strip (column row 1) <> [] /\
   read_row [] row
   = [(replace backslash (lit "/") (strip (column row 0)),
       strip_chars [dquote] (strip (column row 1)))]).
Proof.
  unfold read_row.
  destruct (length row <? 2) eqn:Hl; [by left|]. apply Nat.ltb_ge in Hl.
  destruct (strip (column row 0)) as [|c0 s0] eqn:H0; [by left|].
  destruct (strip (column row 1)) as [|c1 s1] eqn:H1; [by left|].
  right. by repeat split.
Qed.

(** X18. Every pair read from the batch file has a source that is not
    empty, holds no backslash and neither starts nor ends with whitespace,
    and a destination that neither starts nor ends with a double quote;
    there are fewer pairs than rows. *)
Theorem folders_to_sync_normalised
    (rows : list (list str)) (pairs : list (str * str)) (src dst : str) :
  read_folders_to_sync rows = inr pairs ->
  (src, dst) ∈ pairs ->
  src <> [] /\
  (backslash ∉ src) /\
  (forall c, head src = Some c -> is_whitespace c = false) /\
  (forall c, last src = Some c -> is_whitespace c = false) /\
  head dst <> Some dquote /\ last dst <> Some dquote /\
  (length pairs < length rows)%nat.
Proof.
  destruct rows as [|header rows]; [done|]. simpl.
  rewrite read_rows_flat_map. intros [= <-] Hin. simpl in Hin.
  assert (length (flat_map (read_row []) rows) <= length rows)%nat as Hlen.
  { clear Hin. induction rows as [|row rows IH]; simpl; [done|].
    rewrite length_app.
    destruct (read_row_cases row) as [->|(_ & _ & _ & ->)]; simpl; lia. }
  apply list_elem_of_In, in_flat_map in Hin as (row & _ & Hin).
  destruct (read_row_cases row) as [Hnil|(_ & H0 & H1 & Hrow)];
    rewrite ?Hnil, ?Hrow in Hin; [done|].
  destruct Hin as [[= <- <-]|[]].
  change (lit "/") with [slash]. rewrite replace_char.
  destruct (strip_by_split is_whitespace (column row 0))
    as (_ & _ & _ & _ & _ & Hhd0 & Hlast0).
  destruct (strip_by_split (in_chars [dquote]) (strip (column row 1)))
    as (_ & _ & _ & _ & _ & Hhd1 & Hlast1).
  assert (forall c, is_whitespace c = false ->
                    is_whitespace (if (c =? backslash)%N then slash else c)
                    = false) as Hws
    by (intros c Hc; by destruct (c =? backslash)%N).
  unfold strip in *.
  repeat split.
  - intros Hnil%fmap_nil_inv. done.
  - rewrite list_elem_of_fmap. intros (c & Hc & _).
    destruct (N.eqb_spec c backslash); [done|]. by subst.
  - intros c.
    destruct (strip_by is_whitespace (column row 0)) as [|c0 s0]; [done|].
    simpl. intros [= <-]. apply Hws, Hhd0. done.
  - intros c. rewrite fmap_last.
    destruct (last (strip_by is_whitespace (column row 0))) as [c0|] eqn:El;
      [|done].
    simpl. intros [= <-]. by apply Hws, Hlast0.
  - intros Hd. apply Hhd1 in Hd. by vm_compute in Hd.
  - intros Hd. apply Hlast1 in Hd. by vm_compute in Hd.
  - lia.
Qed.

Lemma folders_to_sync_normalised_witness :
  lit "C:/data/in" <> [] /\ (backslash ∉ lit "C:/data/in").
Proof.
  pose proof (folders_to_sync_normalised
    [ [lit "source"; lit "target"];
      [lit " C:\data\in "; lit " " ++ [dquote] ++ lit "remote:out" ++ [dquote]] ]
    [(lit "C:/data/in", lit "remote:out")]
    (lit "C:/data/in") (lit "remote:out")) as H.
  destruct H as (H1 & H2 & _).
  - reflexivity.
  - by left.
  - split; [exact H1|exact H2].
Defined.

(* ===================================================================== *)
(** * The order of a listing, and the difference report *)
(* ===================================================================== *)

Lemma path_dict_lookup (structure : list entry) (p : str) :
  path_dict structure !! p = last (filter (fun e => path e = p) structure).
Proof.
  unfold path_dict. rewrite path_dict_foldl_lookup. by destruct (last _).
Qed.

Lemma filter_path_at_most_one (structure : list entry) (p : str) :
  NoDup (map path structure) ->
  (length (filter (fun e => path e = p) structure) <= 1)%nat.
Proof.
  induction structure as [|e l IH]; simpl; [lia|].
  intros [Hnin Hnd]%NoDup_cons. specialize (IH Hnd).
  destruct (decide (path e = p)) as [He|He].
  - rewrite filter_cons_True by done.
    destruct (filter (fun e => path e = p) l) as [|x xs] eqn:Hf; [simpl; lia|].
    assert (x ∈ filter (fun e => path e = p) l) as Hx by (rewrite Hf; by left).
    apply list_elem_of_filter in Hx as [Hxp Hxl].
    destruct Hnin. rewrite He, <- Hxp. by apply list_elem_of_fmap_2.
  - by rewrite filter_cons_False.
Qed.

Lemma path_dict_permutation (l1 l2 : list entry) :
  NoDup (map path l1) -> l1 ≡ₚ l2 -> path_dict l1 = path_dict l2.
Proof.
  intros Hnd Hp. apply map_eq. intros p. rewrite !path_dict_lookup.
  pose proof (filter_path_at_most_one l1 p Hnd) as H1.
  assert (NoDup (map path l2)) as Hnd2 by (by rewrite <- Hp).
  pose proof (filter_path_at_most_one l2 p Hnd2) as H2.
  assert (filter (fun e => path e = p) l1 ≡ₚ filter (fun e => path e = p) l2)
    as Hf by (by rewrite Hp).
  destruct (filter (fun e => path e = p) l1) as [|a [|??]];
    [|..|simpl in H1; lia].
  - by apply Permutation_nil_l in Hf as ->.
  - by apply Permutation_singleton_l in Hf as ->.
Qed.

(** X19. When no path occurs twice in a listing, the order of the entries
    in the two listings does not change the report. *)
Theorem listing_order_irrelevant
    (fromisoformat : str -> option datetime)
    (source_structure source_structure' : list entry)
    (target_structure target_structure' : list entry) :
  NoDup (map path source_structure) ->
  NoDup (map path target_structure) ->
  source_structure ≡ₚ source_structure' ->
  target_structure ≡ₚ target_structure' ->
  complete_file_list_check fromisoformat source_structure target_structure
  = complete_file_list_check fromisoformat source_structure' target_structure'.
Proof.
  intros Hs Ht Hps Hpt. unfold complete_file_list_check.
  by rewrite (path_dict_permutation _ _ Hs Hps),
    (path_dict_permutation _ _ Ht Hpt).
Qed.

Lemma listing_order_irrelevant_witness :
  let a := mk_entry (lit "a.txt") (lit "2024-01-01T10:00:00Z") 10 (lit "") false in
  let b := mk_entry (lit "b.txt") (lit "2024-01-01T10:00:00Z") 20 (lit "") false in
  complete_file_list_check IsoFormat.fromisoformat [a; b] [a]
  = complete_file_list_check IsoFormat.fromisoformat [b; a] [a].
Proof.
  intros a b.
  apply (listing_order_irrelevant IsoFormat.fromisoformat [a; b] [b; a] [a] [a]).
  - apply (bool_decide_unpack _). by vm_compute.
  - apply (bool_decide_unpack _). by vm_compute.
  - apply Permutation_swap.
  - reflexivity.
Defined.

Lemma split_no_sep (sep : N) (s : str) : sep ∉ s -> split sep s = [s].
Proof.
  induction s as [|c s IH]; intros Hs; simpl; [done|].
  destruct (N.eqb_spec c sep) as [->|Hne]; [destruct Hs; by left|].
  rewrite IH; [done|]. intros ?. apply Hs. by right.
Qed.

Lemma split_app_sep (sep : N) (f s : str) :
  sep ∉ f -> split sep (f ++ sep :: s) = f :: split sep s.
Proof.
  induction f as [|c f IH]; intros Hf; simpl.
  { by rewrite N.eqb_refl. }
  destruct (N.eqb_spec c sep) as [->|Hne]; [destruct Hf; by left|].
  rewrite IH; [done|]. intros ?. apply Hf. by right.
Qed.

Lemma split_join (sep : N) (fields : list str) :
  fields <> [] -> Forall (fun f => sep ∉ f) fields ->
  split sep (str_join [sep] fields) = fields.
Proof.
  induction fields as [|f fields IH]; [done|]. intros _ Hf.
  apply Forall_cons in Hf as [Hf Hfs].
  destruct fields as [|g fields].
  - simpl. by apply split_no_sep.
  - change (str_join [sep] (f :: g :: fields))
      with (f ++ sep :: str_join [sep] (g :: fields)).
    rewrite split_app_sep by done. f_equal. by apply IH.
Qed.

Lemma string_of_uint_no_comma (u : Decimal.uint) :
  comma ∉ lit (DecimalString.NilEmpty.string_of_uint u).
Proof.
  induction u; simpl; first [by intros ?%elem_of_nil |
    intros [H|H]%elem_of_cons; [discriminate H|by apply IHu]].
Qed.

Lemma str_of_Z_no_comma (z : Z) : comma ∉ str_of_Z z.
Proof.
  unfold str_of_Z, DecimalString.NilZero.string_of_int.
  destruct (Z.to_int z) as [u|u].
  - unfold DecimalString.NilZero.string_of_uint.
    destruct u; first [by apply (bool_decide_unpack _); vm_compute
                      | apply string_of_uint_no_comma].
  - unfold DecimalString.NilZero.string_of_uint.
    intros [H|H]%elem_of_cons; [discriminate H|]. revert H.
    destruct u; first [by apply (bool_decide_unpack _); vm_compute
                      | apply string_of_uint_no_comma].
Qed.

Lemma format_size_no_comma (o : option Z) : comma ∉ format_size o.
Proof.
  destruct o; [apply str_of_Z_no_comma|].
  apply (bool_decide_unpack _). by vm_compute.
Qed.

Lemma str_of_bool_no_comma (b : bool) : comma ∉ str_of_bool b.
Proof. destruct b; apply (bool_decide_unpack _); by vm_compute. Qed.

Lemma diff_type_name_no_comma (t : diff_type) : comma ∉ diff_type_name t.
Proof. destruct t; apply (bool_decide_unpack _); by vm_compute. Qed.

Lemma difflist_row_join (d : difference) :
  difflist_row d
  = str_join [comma]
      [diff_type_name (type d); diff_path d;
       format_size (source_size d); format_modtime (source_modtime d);
       format_size (target_size d); format_modtime (target_modtime d);
       str_of_bool (flag (size_different d));
       str_of_bool (flag (modtime_different d))]
    ++ [10%N].
Proof.
  unfold difflist_row. cbn [str_join]. by rewrite <- !app_assoc.
Qed.

(** X20. A row of the difference report reads back: when the path and the
    two times of a record hold no comma, splitting the row at the commas
    gives its eight fields. *)
Theorem difflist_row_reads_back (d : difference) :
  comma ∉ diff_path d ->
  comma ∉ format_modtime (source_modtime d) ->
  comma ∉ format_modtime (target_modtime d) ->
  exists body,
    difflist_row d = body ++ [10%N] /\
    split comma body
    = [diff_type_name (type d); diff_path d;
       format_size (source_size d); format_modtime (source_modtime d);
       format_size (target_size d); format_modtime (target_modtime d);
       str_of_bool (flag (size_different d));
       str_of_bool (flag (modtime_different d))].
Proof.
  intros Hp Hs Ht. eexists. split; [apply difflist_row_join|].
  apply split_join; [done|].
  repeat constructor;
    auto using diff_type_name_no_comma, format_size_no_comma,
      str_of_bool_no_comma.
Qed.

Lemma difflist_row_reads_back_witness :
  exists body,
    difflist_row
      {| type := MISSING_IN_TARGET; diff_path := lit "a/b.txt";
         source_size := Some 10%Z;
         source_modtime := Some (lit "2024-01-01T10:00:00Z");
         target_size := None; target_modtime := None;
         size_different := None; modtime_different := None |}
    = body ++ [10%N] /\
    split comma body
    = [lit "MISSING_IN_TARGET"; lit "a/b.txt"; lit "10";
       lit "2024-01-01T10:00:00Z"; lit "None"; lit "None";
       lit "False"; lit "False"].
Proof.
  apply (difflist_row_reads_back
    {| type := MISSING_IN_TARGET; diff_path := lit "a/b.txt";
       source_size := Some 10%Z;
       source_modtime := Some (lit "2024-01-01T10:00:00Z");
       target_size := None; target_modtime := None;
       size_different := None; modtime_different := None |}).
  - apply (bool_decide_unpack _). by vm_compute.
  - apply (bool_decide_unpack _). by vm_compute.
  - apply (bool_decide_unpack _). by vm_compute.
Defined.

Lemma count_zero (c : N) (s : str) : c ∉ s -> count c s = 0%nat.
Proof.
  unfold count. induction s as [|x s IH]; intros Hs; [done|].
  rewrite filter_cons_False by (intros ->; apply Hs; by left).
  apply IH. intros ?. apply Hs. by right.
Qed.

(** X21. The report does not quote its fields: a row splits at the commas
    into eight fields and one more for every comma in the path or in one of
    the two times. *)
Theorem difflist_row_field_count (d : difference) :
  length (split comma (difflist_row d))
  = (8 + count comma (diff_path d)
     + count comma (format_modtime (source_modtime d))
     + count comma (format_modtime (target_modtime d)))%nat.
Proof.
  rewrite split_length. unfold difflist_row.
  rewrite !count_app.
  rewrite (count_zero _ _ (diff_type_name_no_comma _)),
    !(count_zero _ _ (format_size_no_comma _)),
    !(count_zero _ _ (str_of_bool_no_comma _)).
  assert (count comma [comma] = 1%nat) as -> by done.
  assert (count comma [10%N] = 0%nat) as -> by done.
  lia.
Qed.
